(** * Contract analysis: recovery of the model's JSON and heuristic risk scoring

    A shallow embedding of [src/core/intelligence.py]: the keyword risk score,
    the score buckets, the salvage of a JSON object from the assistant's text
    and the orchestration in [analyze_contract].

    Conventions of the embedding.
    - A Python [str] is a [string]; every character is a code point below 256,
      so [str.lower] is the simple case mapping of that range.
    - A Python [int] is a [Z]; a Python [float] is an IEEE-754 binary64 value,
      a [spec_float] of the Standard Library at precision 53.
    - A value produced by [json.loads] is a [JSONValue]; Python's [None] is
      [JNull] and a [dict] is an association list in insertion order.
    - A call that can raise returns an [outcome]. *)

From Stdlib Require Import ZArith List String Ascii Bool Lia Sorted.
From Stdlib Require Import Floats.SpecFloat.
Import ListNotations.

Set Warnings "-register-all".

Local Open Scope string_scope.
Local Open Scope Z_scope.

(** ** Python built-ins used by the module *)

(** [str.lower] on one character: A-Z and the accented capitals of the
    Latin-1 block move up by 32, the multiplication sign (215) stays. *)
Definition lower_char (c : ascii) : ascii :=
  let n := N_of_ascii c in
  if ((65 <=? n) && (n <=? 90) ||
      (192 <=? n) && (n <=? 222) && negb (n =? 215))%N
  then ascii_of_N (n + 32)
  else c.

Fixpoint lower (s : string) : string :=
  match s with
  | EmptyString => EmptyString
  | String c s' => String (lower_char c) (lower s')
  end.

(** [w in t] for two strings: [w] occurs in [t] as a substring. *)
Fixpoint str_in (w t : string) : bool :=
  prefix w t ||
  match t with
  | EmptyString => false
  | String _ t' => str_in w t'
  end.

(** [s[:n]]. *)
Definition str_take (n : nat) (s : string) : string := substring 0 n s.

(** ** The keyword table and the clause score *)

Definition RISK_KEYWORDS : list (string * list string) :=
  [ ("high", ["penalty"; "indemnity"; "unilateral"; "terminate without";
              "liquidated damages"]);
    ("medium", ["auto-renew"; "renewal"; "notice period"; "arbitration";
                "governing law"]);
    ("low", ["confidential"; "nda"; "non-disclosure"]) ].

(** The body of the inner loop: one keyword [w] of tier [level]. *)
Definition score_step (t level : string) (score : Z) (w : string) : Z :=
  if str_in w t then
    if (level =? "high")%string then score + 30
    else if (level =? "medium")%string then score + 15
    else score + 5
  else score.

Definition _keyword_risk_score (text : string) : Z :=
  let t := lower text in
  let score :=
    fold_left
      (fun score (entry : string * list string) =>
         let (level, words) := entry in
         fold_left (score_step t level) words score)
      RISK_KEYWORDS 0 in
  Z.min 100 score.

Definition _map_score_to_bucket (score : Z) : string :=
  if score >=? 60 then "High"
  else if score >=? 30 then "Medium"
  else "Low".

(** The score as the specification words it: every keyword of the table
    that occurs in the text adds the weight of its tier, once. *)
Definition tier_weight (level : string) : Z :=
  if (level =? "high")%string then 30
  else if (level =? "medium")%string then 15
  else 5.

Definition keywords : list (string * string) :=
  flat_map (fun entry : string * list string =>
              map (fun w => (fst entry, w)) (snd entry))
           RISK_KEYWORDS.

Definition presence_total (t : string) : Z :=
  fold_right Z.add 0
    (map (fun lw : string * string =>
            if str_in (snd lw) t then tier_weight (fst lw) else 0)
         keywords).

(** ** Values and outcomes *)

Inductive JSONValue : Type :=
  | JNull
  | JBool (b : bool)
  | JInt (n : Z)
  | JFloat (f : spec_float)
  | JString (s : string)
  | JArray (items : list JSONValue)
  | JObject (members : list (string * JSONValue)).

(** [d.get(k)] on a dict, [None] standing for a missing key. *)
Fixpoint dict_get (k : string) (d : list (string * JSONValue))
  : option JSONValue :=
  match d with
  | [] => None
  | (k', v) :: d' => if (k' =? k)%string then Some v else dict_get k d'
  end.

(** [d[k] = v]: a key already present keeps its place. *)
Fixpoint dict_set (k : string) (v : JSONValue) (d : list (string * JSONValue))
  : list (string * JSONValue) :=
  match d with
  | [] => [(k, v)]
  | (k', v') :: d' =>
      if (k' =? k)%string then (k, v) :: d' else (k', v') :: dict_set k v d'
  end.

Inductive exn : Type :=
  | AttributeError
  | TypeError
  | OverflowError
  | ValueError
  | ZeroDivisionError
  | RuntimeError.

Inductive outcome (A : Type) : Type :=
  | Ok (a : A)
  | Raise (e : exn).

Arguments Ok {A} a.
Arguments Raise {A} e.

Definition bind {A B : Type} (x : outcome A) (f : A -> outcome B) : outcome B :=
  match x with
  | Ok a => f a
  | Raise e => Raise e
  end.

Notation "x <- c ;; k" := (bind c (fun x => k))
  (at level 61, c at next level, right associativity).

(** ** Characters with a role in the scan *)

Definition LF : ascii := "010"%char.
Definition backtick : ascii := "`"%char.
Definition lbrace : ascii := "{"%char.
Definition rbrace : ascii := "}"%char.

(** ** Fence stripping *)

(** [delete_matches match_len 0 s] is [re.sub(p, EMPTY, s)] for a pattern
    that matches no empty string: [match_len s] is the length of the match
    of [p] at the head of [s], 0 when there is none.  The scan goes left to
    right; a match is dropped whole and the scan resumes after it. *)
Fixpoint delete_matches (match_len : string -> nat) (skip : nat) (s : string)
  : string :=
  match s with
  | EmptyString => EmptyString
  | String c s' =>
      match skip with
      | S k => delete_matches match_len k s'
      | O =>
          match match_len s with
          | O => String c (delete_matches match_len O s')
          | S k => delete_matches match_len k s'
          end
      end
  end.

Definition fence : string := "```".

(** Three backticks, then [json] in any letter case or nothing, then a
    line feed: the pattern of line 64 under [re.IGNORECASE]. *)
Definition fence_open_len (s : string) : nat :=
  if prefix fence s then
    let r := substring 3 (length s - 3) s in
    if prefix ("json" ++ String LF EmptyString) (lower r) then 8%nat
    else if prefix (String LF EmptyString) r then 4%nat
    else 0%nat
  else 0%nat.

(** The literal of line 65. *)
Definition fence_len (s : string) : nat :=
  if prefix fence s then 3%nat else 0%nat.

Definition strip_fences (s : string) : string :=
  let s_clean := delete_matches fence_open_len 0 s in
  delete_matches fence_len 0 s_clean.

(** The fenced form of a text: an opening fence with its language hint, a
    line feed, the text, a line feed and a closing fence. *)
Definition fenced (m : string) : string :=
  (fence ++ "json" ++ String LF (m ++ String LF fence))%string.

(** ** The brace scan, recovery *)

Section Recovery.

(** [json.loads], of Python's standard library: [Some v] when the text
    parses, [None] when it raises. *)
Variable loads : string -> option JSONValue.

(** [[m.start() for m in re.finditer(r"\{", s_clean)]]. *)
Definition start_idxs (s_clean : string) : list nat :=
  filter
    (fun i => match get i s_clean with
              | Some c => (c =? lbrace)%char
              | None => false
              end)
    (seq 0 (length s_clean)).

(** The inner loop, lines 71-81, over the indices still to visit, all of
    them below the length of [s_clean].  [Some v] is [return v]; [None] is
    the loop left by [break] or by running out of indices, after which the
    outer loop goes on. *)
Fixpoint scan_from (s_clean : string) (start : nat) (range : list nat)
         (depth : Z) : option JSONValue :=
  match range with
  | [] => None
  | i :: range' =>
      match get i s_clean with
      | None => None
      | Some c =>
          if (c =? lbrace)%char then
            scan_from s_clean start range' (depth + 1)
          else if (c =? rbrace)%char then
            let depth := depth - 1 in
            if depth =? 0 then
              let candidate := substring start (i + 1 - start) s_clean in
              loads candidate
            else scan_from s_clean start range' depth
          else scan_from s_clean start range' depth
      end
  end.

(** The outer loop, lines 69-82. *)
Fixpoint scan_starts (s_clean : string) (starts : list nat)
  : option JSONValue :=
  match starts with
  | [] => None
  | start :: starts' =>
      match scan_from s_clean start
              (seq start (length s_clean - start)) 0 with
      | Some v => Some v
      | None => scan_starts s_clean starts'
      end
  end.

(** Lines 52-82.  Python's [None] is [JNull]. *)
Definition _extract_json_from_text (s : string) : JSONValue :=
  match s with
  | EmptyString => JNull
  | _ =>
      let s_clean := strip_fences s in
      match scan_starts s_clean (start_idxs s_clean) with
      | Some v => v
      | None => JNull
      end
  end.

(** Lines 84-94: the value bound to [parsed]. *)
Definition parsed_of (assistant_content : string) : JSONValue :=
  match loads assistant_content with
  | Some v => v
  | None =>
      match _extract_json_from_text assistant_content with
      | JNull => JObject [("raw", JString assistant_content)]
      | salvaged => salvaged
      end
  end.

(** *** The scan as the specification words it *)

(** What one character adds to the depth. *)
Definition brace_delta (c : ascii) : Z :=
  if (c =? lbrace)%char then 1
  else if (c =? rbrace)%char then -1
  else 0.

(** Number of opening braces minus number of closing braces. *)
Fixpoint brace_balance (s : string) : Z :=
  match s with
  | EmptyString => 0
  | String c s' => brace_delta c + brace_balance s'
  end.

(** The first position at or after [start] where the depth counted from
    [start] is back to zero. *)
Definition first_closure (s : string) (start : nat) : option nat :=
  find (fun i => brace_balance (substring start (i + 1 - start) s) =? 0)
       (seq start (length s - start)).

(** The one candidate of a start position. *)
Definition candidate_at (s : string) (start : nat) : option string :=
  match first_closure s start with
  | Some i => Some (substring start (i + 1 - start) s)
  | None => None
  end.

(** The parse of the leftmost start whose candidate parses. *)
Fixpoint leftmost_parse (s : string) (starts : list nat)
  : option JSONValue :=
  match starts with
  | [] => None
  | start :: starts' =>
      match candidate_at s start with
      | Some c =>
          match loads c with
          | Some v => Some v
          | None => leftmost_parse s starts'
          end
      | None => leftmost_parse s starts'
      end
  end.

End Recovery.

(** ** A strict JSON reader

    [json.loads] belongs to Python's standard library, not to the
    repository.  [Json.loads] follows its decoder in strict mode on texts
    whose characters and escapes stay below code point 256: white space is
    blank, tab, line feed and carriage return; a number is an [int] unless
    it has a fraction or an exponent; [NaN], [Infinity] and [-Infinity] are
    accepted; a repeated key keeps its first place and its last value.  The
    interpreter's limits (recursion depth, digits of an integer) are left
    out. *)

Module Json.

Definition dquote : ascii := "034"%char.
Definition backslash : ascii := "092"%char.

Definition is_ws (c : ascii) : bool :=
  ((c =? " ") || (c =? "009") || (c =? "010") || (c =? "013"))%char.

Fixpoint skip_ws (s : string) : string :=
  match s with
  | EmptyString => EmptyString
  | String c s' => if is_ws c then skip_ws s' else s
  end.

Definition is_digit (c : ascii) : bool :=
  ((48 <=? N_of_ascii c) && (N_of_ascii c <=? 57))%N.

Definition digit_val (c : ascii) : Z := Z.of_N (N_of_ascii c) - 48.

Definition hex_val (c : ascii) : option N :=
  let n := N_of_ascii c in
  if ((48 <=? n) && (n <=? 57))%N then Some (n - 48)%N
  else if ((65 <=? n) && (n <=? 70))%N then Some (n - 55)%N
  else if ((97 <=? n) && (n <=? 102))%N then Some (n - 87)%N
  else None.

Definition hex4 (a b c d : ascii) : option N :=
  match hex_val a, hex_val b, hex_val c, hex_val d with
  | Some x, Some y, Some z, Some w =>
      Some (((x * 16 + y) * 16 + z) * 16 + w)%N
  | _, _, _, _ => None
  end.

(** The one-letter escapes of a string literal. *)
Definition unescape (e : ascii) : option ascii :=
  if (e =? dquote)%char then Some dquote
  else if (e =? backslash)%char then Some backslash
  else if (e =? "/")%char then Some "/"%char
  else if (e =? "b")%char then Some "008"%char
  else if (e =? "f")%char then Some "012"%char
  else if (e =? "n")%char then Some "010"%char
  else if (e =? "r")%char then Some "013"%char
  else if (e =? "t")%char then Some "009"%char
  else None.

Definition push (c : ascii) (r : option (string * string))
  : option (string * string) :=
  match r with
  | Some (str, rest) => Some (String c str, rest)
  | None => None
  end.

(** The text after an opening quote: the string it denotes and what
    follows the closing quote. *)
Fixpoint scanstring (s : string) : option (string * string) :=
  match s with
  | EmptyString => None
  | String c r =>
      if (c =? dquote)%char then Some (EmptyString, r)
      else if (c =? backslash)%char then
        match r with
        | EmptyString => None
        | String e r1 =>
            if (e =? "u")%char then
              match r1 with
              | String h1 (String h2 (String h3 (String h4 r2))) =>
                  match hex4 h1 h2 h3 h4 with
                  | Some n =>
                      if (n <? 256)%N then push (ascii_of_N n) (scanstring r2)
                      else None
                  | None => None
                  end
              | _ => None
              end
            else
              match unescape e with
              | Some c' => push c' (scanstring r1)
              | None => None
              end
        end
      else if (N_of_ascii c <? 32)%N then None
      else push c (scanstring r)
  end.

(** The longest run of digits at the head, as (value, count, rest). *)
Fixpoint span_digits (acc : Z) (count : Z) (s : string) : Z * Z * string :=
  match s with
  | EmptyString => (acc, count, s)
  | String c s' =>
      if is_digit c then span_digits (acc * 10 + digit_val c) (count + 1) s'
      else (acc, count, s)
  end.

(** [float(text)] for the decimal [digits * 10 ^ e10], rounded to the
    nearest binary64, ties to even. *)
Definition float_of_decimal (neg : bool) (digits e10 : Z) : spec_float :=
  match digits with
  | Zpos m =>
      if e10 >=? 0 then
        binary_normalize 53 1024
          (if neg then - (digits * 10 ^ e10) else digits * 10 ^ e10) 0 neg
      else
        SFdiv 53 1024 (S754_finite neg m 0)
          (S754_finite false (Z.to_pos (10 ^ (- e10))) 0)
  | _ => S754_zero neg
  end.

(** The number pattern of the decoder at the head: an optional minus
    sign; a zero or a run of digits that does not start with zero; then,
    each optional, a point with at least one digit and an exponent letter
    with an optional sign and at least one digit. *)
Definition match_number (s : string) : option (JSONValue * string) :=
  let (neg, s1) :=
    match s with
    | String c r => if (c =? "-")%char then (true, r) else (false, s)
    | EmptyString => (false, s)
    end in
  match s1 with
  | String d r =>
      if is_digit d then
        let '(int_part, _, r1) :=
          if (d =? "0")%char then (0, 1, r)
          else span_digits (digit_val d) 1 r in
        let '(mant, frac_len, r2) :=
          match r1 with
          | String c r' =>
              if (c =? ".")%char then
                let '(m, k, rf) := span_digits int_part 0 r' in
                if k =? 0 then (int_part, 0, r1) else (m, k, rf)
              else (int_part, 0, r1)
          | EmptyString => (int_part, 0, r1)
          end in
        let '(exp, r3) :=
          match r2 with
          | String c r' =>
              if ((c =? "e") || (c =? "E"))%char then
                let '(eneg, rs) :=
                  match r' with
                  | String sg rs =>
                      if (sg =? "-")%char then (true, rs)
                      else if (sg =? "+")%char then (false, rs)
                      else (false, r')
                  | EmptyString => (false, r')
                  end in
                let '(e, k, re) := span_digits 0 0 rs in
                if k =? 0 then (None, r2)
                else (Some (if eneg then - e else e), re)
              else (None, r2)
          | EmptyString => (None, r2)
          end in
        match exp with
        | None =>
            if frac_len =? 0
            then Some (JInt (if neg then - int_part else int_part), r3)
            else Some (JFloat (float_of_decimal neg mant (- frac_len)), r3)
        | Some e => Some (JFloat (float_of_decimal neg mant (e - frac_len)), r3)
        end
      else None
  | EmptyString => None
  end.

(** [strip_prefix p s]: what follows [p] when [s] starts with it. *)
Definition strip_prefix (p s : string) : option string :=
  if prefix p s
  then Some (substring (length p) (length s - length p) s)
  else None.

(** A literal name or a number at the head. *)
Definition scan_atom (s : string) : option (JSONValue * string) :=
  match strip_prefix "null" s with
  | Some r => Some (JNull, r)
  | None =>
  match strip_prefix "true" s with
  | Some r => Some (JBool true, r)
  | None =>
  match strip_prefix "false" s with
  | Some r => Some (JBool false, r)
  | None =>
  match match_number s with
  | Some res => Some res
  | None =>
  match strip_prefix "NaN" s with
  | Some r => Some (JFloat S754_nan, r)
  | None =>
  match strip_prefix "Infinity" s with
  | Some r => Some (JFloat (S754_infinity false), r)
  | None =>
  match strip_prefix "-Infinity" s with
  | Some r => Some (JFloat (S754_infinity true), r)
  | None => None
  end end end end end end end.

(** One value at the head of [s]; [parse_members] reads an object from
    the quote of a key on, [parse_elements] an array from an element on.
    Every call uses up one unit of [fuel] and at least one character. *)
Fixpoint parse_value (fuel : nat) (s : string)
  : option (JSONValue * string) :=
  match fuel with
  | O => None
  | S n =>
      match s with
      | EmptyString => None
      | String c r =>
          if (c =? dquote)%char then
            match scanstring r with
            | Some (str, r') => Some (JString str, r')
            | None => None
            end
          else if (c =? lbrace)%char then
            match skip_ws r with
            | String c' r' =>
                if (c' =? rbrace)%char then Some (JObject [], r')
                else parse_members n (String c' r') []
            | EmptyString => None
            end
          else if (c =? "[")%char then
            match skip_ws r with
            | String c' r' =>
                if (c' =? "]")%char then Some (JArray [], r')
                else parse_elements n (String c' r') []
            | EmptyString => None
            end
          else scan_atom s
      end
  end

with parse_members (fuel : nat) (s : string)
       (acc : list (string * JSONValue)) : option (JSONValue * string) :=
  match fuel with
  | O => None
  | S n =>
      match s with
      | EmptyString => None
      | String c r =>
          if (c =? dquote)%char then
            match scanstring r with
            | Some (key, r1) =>
                match skip_ws r1 with
                | String c1 r2 =>
                    if (c1 =? ":")%char then
                      match parse_value n (skip_ws r2) with
                      | Some (v, r3) =>
                          let acc' := dict_set key v acc in
                          match skip_ws r3 with
                          | String c3 r4 =>
                              if (c3 =? rbrace)%char
                              then Some (JObject acc', r4)
                              else if (c3 =? ",")%char
                              then parse_members n (skip_ws r4) acc'
                              else None
                          | EmptyString => None
                          end
                      | None => None
                      end
                    else None
                | EmptyString => None
                end
            | None => None
            end
          else None
      end
  end

with parse_elements (fuel : nat) (s : string) (acc : list JSONValue)
  : option (JSONValue * string) :=
  match fuel with
  | O => None
  | S n =>
      match parse_value n s with
      | Some (v, r) =>
          match skip_ws r with
          | String c r' =>
              if (c =? "]")%char then Some (JArray (acc ++ [v]), r')
              else if (c =? ",")%char
              then parse_elements n (skip_ws r') (acc ++ [v])
              else None
          | EmptyString => None
          end
      | None => None
      end
  end.

(** [json.loads(s)]: one value, white space around it, nothing else. *)
Definition loads (s : string) : option JSONValue :=
  match parse_value (S (length s)) (skip_ws s) with
  | Some (v, r) =>
      match skip_ws r with
      | EmptyString => Some v
      | String _ _ => None
      end
  | None => None
  end.

(** JSON texts are written with apostrophes for their double quotes. *)
Fixpoint q (s : string) : string :=
  match s with
  | EmptyString => EmptyString
  | String c s' => String (if (c =? "'")%char then dquote else c) (q s')
  end.

End Json.

(** ** Dynamic behaviour of values *)

(** [bool(v)]. *)
Definition truthy (v : JSONValue) : bool :=
  match v with
  | JNull => false
  | JBool b => b
  | JInt n => negb (n =? 0)
  | JFloat (S754_zero _) => false
  | JFloat _ => true
  | JString EmptyString => false
  | JString _ => true
  | JArray [] => false
  | JArray _ => true
  | JObject [] => false
  | JObject _ => true
  end.

(** The values a [for] loop over [v] visits: the items of a list, the
    characters of a str, the keys of a dict; no other value is iterable. *)
Definition py_iter (v : JSONValue) : outcome (list JSONValue) :=
  match v with
  | JArray items => Ok items
  | JString s =>
      Ok (map (fun c => JString (String c EmptyString)) (list_ascii_of_string s))
  | JObject d => Ok (map (fun kv => JString (fst kv)) d)
  | _ => Raise TypeError
  end.

(** [a / b] on two ints: the exact quotient rounded to the nearest
    binary64. *)
Definition float_of_int (n : Z) : spec_float :=
  match n with
  | Z0 => S754_zero false
  | Zpos p => S754_finite false p 0
  | Zneg p => S754_finite true p 0
  end.

Definition true_div (a b : Z) : outcome spec_float :=
  if b =? 0 then Raise ZeroDivisionError
  else
    match SFdiv 53 1024 (float_of_int a) (float_of_int b) with
    | S754_infinity _ => Raise OverflowError
    | x => Ok x
    end.

(** [int(x)] on a float: truncation toward zero. *)
Definition py_int (x : spec_float) : outcome Z :=
  match x with
  | S754_zero _ => Ok 0
  | S754_finite s m e =>
      let n := if 0 <=? e then Zpos m * 2 ^ e else Zpos m / 2 ^ (- e) in
      Ok (if s then - n else n)
  | S754_infinity _ => Raise OverflowError
  | S754_nan => Raise ValueError
  end.

(** ** The analysis *)

Record ClauseHighlight : Type := {
  title : JSONValue;
  text : string;
  score : Z;
  bucket : string
}.

Record AnalysisResult : Type := {
  assistant_content : string;
  parsed : JSONValue;
  clause_highlights : list ClauseHighlight;
  composite_risk_score : Z;
  composite_risk_bucket : string
}.

(** Lines 100-103, one turn of the loop over the clauses.  The call of
    line 102 evaluates [body.lower()], which only a str has. *)
Definition clause_highlight (c : JSONValue) : outcome ClauseHighlight :=
  let title :=
    match c with
    | JObject d => match dict_get "title" d with Some v => v | None => JNull end
    | _ => JNull
    end in
  let body :=
    match c with
    | JObject d => match dict_get "text" d with Some v => v | None => JNull end
    | JString _ => c
    | _ => JString EmptyString
    end in
  match body with
  | JString b =>
      let s := _keyword_risk_score b in
      Ok {| title := title; text := b; score := s;
            bucket := _map_score_to_bucket s |}
  | _ => Raise AttributeError
  end.

Fixpoint clause_loop (clauses : list JSONValue)
         (clause_highlights : list ClauseHighlight)
  : outcome (list ClauseHighlight) :=
  match clauses with
  | [] => Ok clause_highlights
  | c :: clauses' =>
      h <- clause_highlight c ;;
      clause_loop clauses' (clause_highlights ++ [h])
  end.

(** The test of line 98, [isinstance(parsed, dict) and parsed.get("clauses")],
    as the value the [if] looks at. *)
Definition clauses_test (parsed : JSONValue) : JSONValue :=
  match parsed with
  | JObject d =>
      match dict_get "clauses" d with Some v => v | None => JNull end
  | _ => JBool false
  end.

(** Lines 97-107. *)
Definition highlights_of (text : string) (parsed : JSONValue)
  : outcome (list ClauseHighlight) :=
  if truthy (clauses_test parsed) then
    clauses <- py_iter (clauses_test parsed) ;;
    clause_loop clauses []
  else
    let s := _keyword_risk_score text in
    Ok [ {| title := JNull; text := str_take 1000 text; score := s;
            bucket := _map_score_to_bucket s |} ].

(** Line 110, on the scores of the highlights. *)
Definition avg_score_of (scores : list Z) : outcome Z :=
  x <- true_div (fold_left Z.add scores 0)
                (Z.max 1 (Z.of_nat (List.length scores))) ;;
  py_int x.

Section Analysis.

Variable loads : string -> option JSONValue.

(** [llm.extract_contract_fields], the call to the model: the assistant's
    text, or the error it raises. *)
Variable extract_contract_fields :
  string -> list string -> string -> outcome string.

Definition analyze_contract (text : string)
           (system_prompts : option (list string)) (model : string)
  : outcome AnalysisResult :=
  assistant_content <-
    extract_contract_fields text
      (match system_prompts with Some l => l | None => [] end) model ;;
  let parsed := parsed_of loads assistant_content in
  clause_highlights <- highlights_of text parsed ;;
  avg_score <- avg_score_of (map score clause_highlights) ;;
  let composite := _map_score_to_bucket avg_score in
  Ok {| assistant_content := assistant_content;
        parsed := parsed;
        clause_highlights := clause_highlights;
        composite_risk_score := avg_score;
        composite_risk_bucket := composite |}.

End Analysis.

(** A collaborator that answers every request with the same text. *)
Definition always_reply (reply : string)
  : string -> list string -> string -> outcome string :=
  fun _ _ _ => Ok reply.

(** ** Notions used to state further properties of the analysis *)

(** The order of the buckets. *)
Definition bucket_rank (b : string) : Z :=
  if (b =? "High")%string then 2
  else if (b =? "Medium")%string then 1
  else 0.

(** The clause entries line 102 can score: every entry but a mapping whose
    text is missing or is no str. *)
Definition scorable (c : JSONValue) : bool :=
  match c with
  | JObject d =>
      match dict_get "text" d with
      | Some (JString _) => true
      | _ => false
      end
  | _ => true
  end.

(** The body lines 100-101 give a scorable entry. *)
Definition clause_body (c : JSONValue) : string :=
  match c with
  | JObject d =>
      match dict_get "text" d with
      | Some (JString b) => b
      | _ => EmptyString
      end
  | JString s => s
  | _ => EmptyString
  end.

(** The title line 100 gives an entry. *)
Definition clause_title (c : JSONValue) : JSONValue :=
  match c with
  | JObject d => match dict_get "title" d with Some v => v | None => JNull end
  | _ => JNull
  end.

(** ** Text extraction, [src/core/extractor.py]

    The readers of PDF and DOCX files and the translation call belong to
    other packages; they are parameters, with any type of errors.  Bytes are
    a [list Byte.byte].  Log messages are left out: they change no result. *)

(** The characters [\s] matches and [str.strip] removes, below code point
    256: tab to carriage return, the four separators 28 to 31, the blank,
    next line (133) and the no-break space (160). *)
Definition is_space (c : ascii) : bool :=
  let n := N_of_ascii c in
  ((9 <=? n) && (n <=? 13) || (28 <=? n) && (n <=? 32) ||
   (n =? 133) || (n =? 160))%N.

(** [re.sub(r"\s+", " ", text)]: every maximal run of white space becomes
    one blank; [in_run] says that the character before was white space. *)
Fixpoint collapse_spaces (in_run : bool) (s : string) : string :=
  match s with
  | EmptyString => EmptyString
  | String c s' =>
      if is_space c then
        if in_run then collapse_spaces true s'
        else String " " (collapse_spaces true s')
      else String c (collapse_spaces false s')
  end.

Fixpoint lstrip (s : string) : string :=
  match s with
  | EmptyString => EmptyString
  | String c s' => if is_space c then lstrip s' else s
  end.

Fixpoint rstrip (s : string) : string :=
  match s with
  | EmptyString => EmptyString
  | String c s' =>
      match rstrip s' with
      | EmptyString => if is_space c then EmptyString else String c EmptyString
      | r => String c r
      end
  end.

(** [s.strip()]. *)
Definition strip (s : string) : string := rstrip (lstrip s).

Definition normalize_whitespace (text : string) : string :=
  strip (collapse_spaces false text).

(** [s.endswith(suffix)]. *)
Fixpoint endswith (s suffix : string) : bool :=
  (s =? suffix)%string ||
  match s with
  | EmptyString => false
  | String _ s' => endswith s' suffix
  end.

(** One message of a chat request. *)
Record message : Type := {
  role : string;
  content : string
}.

(** Lines 84-93: the two messages of the translation request. *)
Definition translation_messages (text : string) : list message :=
  [ {| role := "system";
       content :=
         "You are a concise translator." ++ String LF
           ("Respond with only the translated text in English. " ++
            "Do not add commentary or notes.") |};
    {| role := "user";
       content :=
         "Translate the following text to English (detect language automatically):"
           ++ String LF (String LF (str_take (20 * 1000) text)) |} ].

Section Extractor.

(** The errors the other packages raise. *)
Variable error : Type.

(** [_extract_text_from_pdf_bytes] and [_extract_text_from_docx_bytes]:
    the text PyMuPDF, respectively python-docx, reads from the bytes, or
    the error raised, also when the package is missing. *)
Variable _extract_text_from_pdf_bytes : list Byte.byte -> error + string.
Variable _extract_text_from_docx_bytes : list Byte.byte -> error + string.

(** [data.decode("utf-8")], [None] when it raises. *)
Variable decode_utf8 : list Byte.byte -> option string.

(** Lines 78-103 after the messages are built: the client, the request
    to the model named and the content of its answer, or the error raised
    on the way. *)
Variable translation_call : string -> list message -> error + string.

(** Lines 52-61.  Decoding as Latin-1 gives every byte its own character
    and cannot fail. *)
Definition _extract_text_from_txt_bytes (data : list Byte.byte) : string :=
  match decode_utf8 data with
  | Some out => out
  | None => string_of_list_byte data
  end.

Definition maybe_translate_hindi_to_english (text : string) (enable : bool)
  : string :=
  if negb enable then text
  else
    match translation_call "gpt-4o-mini" (translation_messages text) with
    | inr translated => translated
    | inl _ => text
    end.

(** The loop of lines 132-138 over the readers still to try; [text] is
    the variable of line 115. *)
Fixpoint try_readers (fns : list (list Byte.byte -> error + string))
         (data : list Byte.byte) (text : string) : string :=
  match fns with
  | [] => text
  | fn :: fns' =>
      match fn data with
      | inr t =>
          match t with
          | EmptyString => try_readers fns' data t
          | String _ _ => t
          end
      | inl _ => try_readers fns' data text
      end
  end.

Definition extract_text_from_bytes (data : list Byte.byte)
           (filename : option string) (translate_hindi : bool)
  : error + string :=
  let raw :=
    match filename with
    | Some (String c f') =>
        let lower := lower (String c f') in
        if endswith lower ".pdf" then _extract_text_from_pdf_bytes data
        else if endswith lower ".docx" || endswith lower ".doc"
        then _extract_text_from_docx_bytes data
        else if endswith lower ".txt"
        then inr (_extract_text_from_txt_bytes data)
        else
          match _extract_text_from_pdf_bytes data with
          | inr t => inr t
          | inl _ => inr (_extract_text_from_txt_bytes data)
          end
    | _ =>
        inr (try_readers
               [_extract_text_from_pdf_bytes;
                _extract_text_from_docx_bytes;
                fun d => inr (_extract_text_from_txt_bytes d)]
               data EmptyString)
    end in
  match raw with
  | inl e => inl e
  | inr text =>
      let text := normalize_whitespace text in
      inr (if translate_hindi
           then maybe_translate_hindi_to_english text true
           else text)
  end.

End Extractor.

(** *** Shapes of text, to state what normalizing achieves *)

(** Every white-space character is a blank and none follows another;
    [prev_space] says that the character before was white space. *)
Fixpoint spaced (prev_space : bool) (s : string) : bool :=
  match s with
  | EmptyString => true
  | String c s' =>
      if is_space c
      then (c =? " ")%char && negb prev_space && spaced true s'
      else spaced false s'
  end.

(** The same, and the text does not end with white space. *)
Fixpoint well_spaced (prev_space : bool) (s : string) : bool :=
  match s with
  | EmptyString => negb prev_space
  | String c s' =>
      if is_space c
      then (c =? " ")%char && negb prev_space && well_spaced true s'
      else well_spaced false s'
  end.

(** The text without its white space. *)
Fixpoint remove_spaces (s : string) : string :=
  match s with
  | EmptyString => EmptyString
  | String c s' =>
      if is_space c then remove_spaces s' else String c (remove_spaces s')
  end.

(** * The in-memory log, [logging_utils.py] *)

Module logging_utils.

Definition _MAX_LINES : nat := 200.

Section ListHandler.

Variable LogRecord : Type.

(** [self.format(record)] and [record.getMessage()]; [None] when the
    call raises. *)
Variable format : LogRecord -> option string.
Variable getMessage : LogRecord -> option string.

(** Lines 15-18. *)
Definition message_of (record : LogRecord) : option string :=
  match format record with
  | Some msg => Some msg
  | None => getMessage record
  end.

(** [ListHandler.emit], lines 14-22, on the module's list [_LOG_LINES]:
    the list afterwards, or [None] when the call raises, which is before
    the list is touched. *)
Definition emit (_LOG_LINES : list string) (record : LogRecord)
  : option (list string) :=
  match message_of record with
  | None => None
  | Some msg =>
      let _LOG_LINES := (_LOG_LINES ++ [msg])%list in
      Some (if (_MAX_LINES <? List.length _LOG_LINES)%nat
            then skipn (List.length _LOG_LINES - _MAX_LINES) _LOG_LINES
            else _LOG_LINES)
  end.

(** The list after the handler has been given the records one after the
    other. *)
Definition emit_all (_LOG_LINES : list string) (records : list LogRecord)
  : list string :=
  fold_left (fun lines record =>
               match emit lines record with
               | Some lines' => lines'
               | None => lines
               end)
            records _LOG_LINES.

(** The messages of the records that have one. *)
Definition messages_of (records : list LogRecord) : list string :=
  flat_map (fun record =>
              match message_of record with
              | Some msg => [msg]
              | None => []
              end)
           records.

End ListHandler.

(** Lines 42-43. *)
Definition get_logs (_LOG_LINES : list string) : list string := _LOG_LINES.

(** The handlers of the root logger: a [ListHandler] with its formatter
    (format and date format) if it has one, or a handler of another
    class. *)
Inductive Handler (other : Type) : Type :=
  | ListHandler (formatter : option (string * string))
  | OtherHandler (h : other).

Arguments ListHandler {other} formatter.
Arguments OtherHandler {other} h.

Definition is_ListHandler {other : Type} (h : Handler other) : bool :=
  match h with
  | ListHandler _ => true
  | OtherHandler _ => false
  end.

Record Logger (other : Type) : Type := {
  level : Z;
  handlers : list (Handler other)
}.

Arguments level {other} _.
Arguments handlers {other} _.

(** Lines 25-39, on the root logger. *)
Definition setup_logging {other : Type} (root : Logger other) (level : Z)
  : Logger other :=
  if existsb is_ListHandler (handlers root)
  then {| level := level; handlers := handlers root |}
  else
    {| level := level;
       handlers :=
         (handlers root ++
          [ListHandler
             (Some ("%(asctime)s %(levelname)s %(name)s: %(message)s",
                    "%H:%M:%S"))])%list |}.

End logging_utils.

(** * The prompts, [prompts.py] *)

Module prompts.

(** Lines 9-19. *)
Definition GENERAL_EXTRACTOR_PROMPT : string :=
  String LF (
  "<h1>Contract Extraction Assistant</h1>" ++ String LF (
  "<p>You are a precise legal contracts extraction assistant. Y" ++
  "our job is to read the provided contract" ++ String LF (
  "text and return a single, strictly valid JSON object contain" ++
  "ing the requested fields.</p>" ++ String LF (
  "<p>Return ONLY the JSON object in your response (no explanat" ++
  "ions, no footers).</p>" ++ String LF (
  "<ul>" ++ String LF (
  "  <li><b>Fields to return:</b> <i>contract_type, parties, ef" ++
  "fective_date, termination_clause, governing_law, amounts, ob" ++
  "ligations, liabilities, confidentiality, clauses, risk_indic" ++
  "ators, overall_risk</i></li>" ++ String LF (
  "  <li><b>clauses</b> should be a list of objects with <code>" ++
  "title</code> and <code>text</code>.</li>" ++ String LF (
  "  <li>If a field is missing, use <code>null</code> or an emp" ++
  "ty list.</li>" ++ String LF (
  "</ul>" ++ String LF (
  EmptyString)))))))))).

(** Lines 21-25. *)
Definition IP_FOCUS_PROMPT : string :=
  String LF (
  "<h2>IP & Ownership Focus</h2>" ++ String LF (
  "<p>Prioritize identification of intellectual property, assig" ++
  "nment, licensing, and work-for-hire clauses.</p>" ++ String LF (
  "<p>For each identified clause, add a short <code>recommended" ++
  "_action</code> string advising whether to retain, negotiate," ++
  " or remove the clause.</p>" ++ String LF (
  EmptyString)))).

(** Lines 27-30. *)
Definition PENALTIES_FOCUS_PROMPT : string :=
  String LF (
  "<h2>Penalties & Indemnity Focus</h2>" ++ String LF (
  "<p>Prioritize detection of penalty, indemnity, and liquidate" ++
  "d damages clauses. Mark them as <code>severity</code>: Low/M" ++
  "edium/High and include a one-line rationale.</p>" ++ String LF (
  EmptyString))).

(** Lines 32-35. *)
Definition PLAIN_ENGLISH_SUMMARY_PROMPT : string :=
  String LF (
  "<h2>Plain English Summary</h2>" ++ String LF (
  "<p>Provide a short, 3-5 bullet summary in simple business En" ++
  "glish, avoiding legalese. This will be included in the UI bu" ++
  "t should not change the JSON extraction output.</p>" ++ String LF (
  EmptyString))).

(** Lines 38-40. *)
Definition get_default_system_prompts : list string :=
  [GENERAL_EXTRACTOR_PROMPT; PLAIN_ENGLISH_SUMMARY_PROMPT].

End prompts.

(** * The calls to the model, [llm.py] *)

Module llm.

(** [a or b] on two values that are a string or [None]. *)
Definition str_or (a b : option string) : option string :=
  match a with
  | Some (String _ _) => a
  | _ => b
  end.

(** Lines 81-89. *)
Definition user_prompt (text : string) : string :=
  "You are a legal contracts analysis assistant." ++ String LF
  ("Extract the following fields from the provided contract text and " ++
   "return a single JSON object. " ++
   "Fields: contract_type, parties (list), effective_date, " ++
   "termination_clause (text), governing_law, " ++
   "amounts (list), obligations (list), liabilities (list), " ++
   "confidentiality (boolean + summary), " ++
   "clauses (list of {title, text}), risk_indicators (list), " ++
   "overall_risk (Low/Medium/High)." ++ String LF
  ("Return strictly valid JSON. If you can't find a field, use null or " ++
   "an empty list as appropriate." ++ String LF (String LF
  ("CONTRACT TEXT:" ++ String LF text)))).

(** Lines 70-91: the messages of the request. *)
Definition messages_for (text : string) (system_prompts : option (list string))
  : list message :=
  let system_prompts :=
    match system_prompts with
    | None => prompts.get_default_system_prompts
    | Some l => l
    end in
  (map (fun sp => {| role := "system"; content := sp |}) system_prompts ++
   [ {| role := "user"; content := user_prompt text |} ])%list.

Section Client.

(** The client and the response of the openai package. *)
Variable client response : Type.

(** The openai package could be imported (lines 9-14). *)
Variable _OPENAI_AVAILABLE : bool.

(** [os.getenv]. *)
Variable getenv : string -> option string.

(** [OpenAI(api_key=key)] and [client.chat.completions.create(model=...,
    messages=...)]; [None] when the call raises. *)
Variable OpenAI : string -> option client.
Variable create : client -> string -> list message -> option response.

(** Lines 95-98: the content of the first choice, read from the typed
    response or else from the mapping. *)
Variable content_of : response -> outcome string.

(** Lines 17-36. *)
Definition _get_client : outcome client :=
  if negb _OPENAI_AVAILABLE then Raise RuntimeError
  else
    match str_or (getenv "OPENAI_API_KEY") (getenv "openai_key") with
    | Some (String c k) =>
        match OpenAI (String c k) with
        | Some client => Ok client
        | None => Raise RuntimeError
        end
    | _ => Raise RuntimeError
    end.

(** Lines 39-61. *)
Definition call_openai_chat (messages : list message) (model : string)
  : outcome response :=
  client <- _get_client ;;
  match create client model messages with
  | Some resp => Ok resp
  | None => Raise RuntimeError
  end.

(** Lines 64-99. *)
Definition extract_contract_fields (text : string)
           (system_prompts : option (list string)) (model : string)
  : outcome string :=
  let messages := messages_for text system_prompts in
  resp <- call_openai_chat messages model ;;
  content_of resp.

End Client.

End llm.

(** ** Strings *)

Lemma lower_app (a b : string) : lower (a ++ b) = (lower a ++ lower b)%string.
Proof.
  induction a as [|c a IH]; simpl; [reflexivity|].
  now rewrite IH.
Qed.

Lemma prefix_app (w t u : string) :
  prefix w t = true -> prefix w (t ++ u) = true.
Proof.
  revert t; induction w as [|c w IH]; intros t H;
    [now destruct (t ++ u)%string|].
  destruct t as [|d t]; simpl in *; [discriminate|].
  destruct (ascii_dec c d); [now apply IH | discriminate].
Qed.

Lemma str_in_app (w t u : string) :
  str_in w t = true -> str_in w (t ++ u) = true.
Proof.
  induction t as [|d t IH]; intros H.
  - simpl in H. rewrite orb_false_r in H.
    destruct w; [|discriminate]. now destruct u.
  - cbn [str_in] in H. apply orb_true_iff in H.
    change (String d t ++ u)%string with (String d (t ++ u)).
    cbn [str_in]. apply orb_true_iff.
    destruct H as [H|H].
    + left. now apply (prefix_app w (String d t) u).
    + right. now apply IH.
Qed.

(** ** The clause score *)

Lemma score_words_sum (t level : string) (words : list string) (acc : Z) :
  fold_left (score_step t level) words acc =
  acc + fold_right Z.add 0
          (map (fun w => if str_in w t then tier_weight level else 0) words).
Proof.
  revert acc; induction words as [|w words IH]; intros acc; simpl; [lia|].
  rewrite IH. unfold score_step, tier_weight.
  destruct (str_in w t); destruct (level =? "high")%string;
    destruct (level =? "medium")%string; lia.
Qed.

Lemma fold_right_add_app (l1 l2 : list Z) :
  fold_right Z.add 0 (l1 ++ l2) = fold_right Z.add 0 l1 + fold_right Z.add 0 l2.
Proof. induction l1 as [|x l1 IH]; simpl; lia. Qed.

Lemma score_table_sum (t : string) (table : list (string * list string))
      (acc : Z) :
  fold_left
    (fun score (entry : string * list string) =>
       let (level, words) := entry in
       fold_left (score_step t level) words score)
    table acc =
  acc + fold_right Z.add 0
          (map (fun lw : string * string =>
                  if str_in (snd lw) t then tier_weight (fst lw) else 0)
               (flat_map (fun entry : string * list string =>
                            map (fun w => (fst entry, w)) (snd entry))
                         table)).
Proof.
  revert acc; induction table as [|[level words] table IH]; intros acc.
  - simpl; lia.
  - cbn [fold_left flat_map fst snd]. rewrite IH, score_words_sum.
    rewrite map_app, fold_right_add_app, map_map. cbn [fst snd]. lia.
Qed.

Lemma keyword_risk_score_presence (text : string) :
  _keyword_risk_score text = Z.min 100 (presence_total (lower text)).
Proof.
  unfold _keyword_risk_score, presence_total, keywords.
  now rewrite score_table_sum.
Qed.

Lemma presence_total_ext (t1 t2 : string) :
  (forall lw, In lw keywords -> str_in (snd lw) t1 = str_in (snd lw) t2) ->
  presence_total t1 = presence_total t2.
Proof.
  unfold presence_total. induction keywords as [|lw l IH]; intros H.
  - reflexivity.
  - cbn [map fold_right]. rewrite (H lw) by now left.
    rewrite IH; [reflexivity|]. intros; apply H; now right.
Qed.

(** C7: the score looks at which keywords occur, not at how often.  It is
    the sum, capped at 100, of the tier weight of every keyword of the
    table that occurs in the lower-cased text, no keyword is listed twice,
    and writing a text twice with a blank in between leaves the score as it
    is whenever that brings in no keyword the text did not have. *)
Theorem keyword_risk_score_repetition (t : string) :
  (forall lw, In lw keywords ->
     str_in (snd lw) (lower (t ++ " " ++ t)) = true ->
     str_in (snd lw) (lower t) = true) ->
  _keyword_risk_score (t ++ " " ++ t) = _keyword_risk_score t /\
  _keyword_risk_score t = Z.min 100 (presence_total (lower t)) /\
  NoDup (map snd keywords).
Proof.
  intros Hnew. split; [|split].
  - rewrite !keyword_risk_score_presence. f_equal.
    apply presence_total_ext. intros lw Hin.
    destruct (str_in (snd lw) (lower t)) eqn:E.
    + rewrite lower_app. now apply str_in_app.
    + destruct (str_in (snd lw) (lower (t ++ " " ++ t))) eqn:E'; [|reflexivity].
      rewrite (Hnew lw Hin E') in E. discriminate.
  - apply keyword_risk_score_presence.
  - vm_compute.
    repeat (constructor; [cbn [In]; intuition discriminate|]). constructor.
Qed.

Lemma keyword_risk_score_repetition_witness :
  _keyword_risk_score ("penalty renewal" ++ " " ++ "penalty renewal") = 45 /\
  _keyword_risk_score "penalty renewal" = 45.
Proof.
  destruct (keyword_risk_score_repetition "penalty renewal") as [H _].
  - intros lw Hin Hocc. vm_compute in Hin.
    repeat (destruct Hin as [<-|Hin];
            [vm_compute in Hocc |- *; first [reflexivity | discriminate]|]).
    contradiction.
  - split; [rewrite H|]; vm_compute; reflexivity.
Defined.

(** ** The buckets *)

(** C8: the bucket is the step function of the score with steps at 30 and
    60: High from 60 on, Medium from 30 to 59, Low below 30; so 29 is Low,
    30 and 59 are Medium and 60 is High. *)
Theorem map_score_to_bucket_step (score : Z) :
  (60 <= score /\ _map_score_to_bucket score = "High" \/
   30 <= score < 60 /\ _map_score_to_bucket score = "Medium" \/
   score < 30 /\ _map_score_to_bucket score = "Low") /\
  _map_score_to_bucket 29 = "Low" /\
  _map_score_to_bucket 30 = "Medium" /\
  _map_score_to_bucket 59 = "Medium" /\
  _map_score_to_bucket 60 = "High".
Proof.
  split; [|repeat split].
  unfold _map_score_to_bucket. rewrite !Z.geb_leb.
  destruct (Z.leb_spec 60 score); [left; split; [lia|reflexivity]|].
  destruct (Z.leb_spec 30 score); [right; left|right; right];
    (split; [lia|reflexivity]).
Qed.

(** ** Characters and positions of a string *)

Lemma prefix_empty (s : string) : prefix EmptyString s = true.
Proof. now destruct s. Qed.

Lemma str_in_char (a c : ascii) (s : string) :
  str_in (String a EmptyString) (String c s) =
  (a =? c)%char || str_in (String a EmptyString) s.
Proof.
  cbn [str_in prefix]. destruct (ascii_dec a c) as [->|n].
  - now rewrite prefix_empty, Ascii.eqb_refl.
  - apply Ascii.eqb_neq in n. now rewrite n.
Qed.

Lemma str_in_char_get (a : ascii) (s : string) (i : nat) (c : ascii) :
  str_in (String a EmptyString) s = false ->
  get i s = Some c -> (c =? a)%char = false.
Proof.
  revert i; induction s as [|d s IH]; intros i H G; [discriminate|].
  rewrite str_in_char in H. apply orb_false_iff in H as [Hd Hs].
  destruct i as [|i]; simpl in G.
  - injection G as <-. now rewrite Ascii.eqb_sym.
  - now apply (IH i).
Qed.

Lemma substring_zero (n : nat) (s : string) : substring n 0 s = EmptyString.
Proof.
  revert n; induction s as [|c s IH]; intros [|n]; simpl; auto.
Qed.

Lemma substring_head (start n : nat) (s : string) (c : ascii) :
  get start s = Some c ->
  substring start (S n) s = String c (substring (S start) n s).
Proof.
  revert start; induction s as [|d s IH]; intros start G; [discriminate|].
  destruct start as [|start]; simpl in G.
  - injection G as ->. reflexivity.
  - simpl. rewrite (IH start G). reflexivity.
Qed.

Lemma get_some_lt (i : nat) (s : string) (c : ascii) :
  get i s = Some c -> (i < length s)%nat.
Proof.
  revert i; induction s as [|d s IH]; intros i G; [discriminate|].
  destruct i as [|i]; simpl in *; [lia|].
  apply IH in G. lia.
Qed.

Lemma get_lt_some (i : nat) (s : string) :
  (i < length s)%nat -> exists c, get i s = Some c.
Proof.
  revert i; induction s as [|d s IH]; intros i L; simpl in L; [lia|].
  destruct i as [|i]; simpl; [now exists d|].
  apply IH. lia.
Qed.

Lemma get_app_l (i : nat) (s u : string) (c : ascii) :
  get i s = Some c -> get i (s ++ u) = Some c.
Proof.
  revert i; induction s as [|d s IH]; intros i G; [discriminate|].
  destruct i as [|i]; simpl in *; auto.
Qed.

Lemma substring_app_l (start n : nat) (s u : string) :
  (start + n <= length s)%nat ->
  substring start n (s ++ u) = substring start n s.
Proof.
  revert start n; induction s as [|d s IH]; intros start n L; simpl in L.
  - assert (start = 0 /\ n = 0)%nat as [-> ->] by lia.
    simpl. now rewrite substring_zero.
  - destruct start as [|start]; simpl.
    + destruct n as [|n]; [reflexivity|]. f_equal. apply IH. lia.
    + apply IH. lia.
Qed.

(** ** The start positions *)

Lemma start_idxs_in (s : string) (i : nat) :
  In i (start_idxs s) <-> get i s = Some lbrace.
Proof.
  unfold start_idxs. rewrite filter_In, in_seq. split.
  - intros [_ H]. destruct (get i s) as [c|]; [|discriminate].
    apply Ascii.eqb_eq in H. now subst.
  - intros G. split; [pose proof (get_some_lt _ _ _ G); lia|].
    rewrite G. apply Ascii.eqb_refl.
Qed.

Lemma start_idxs_none (s : string) :
  str_in (String lbrace EmptyString) s = false -> start_idxs s = [].
Proof.
  intros H. unfold start_idxs.
  induction (seq 0 (length s)) as [|i l IH]; [reflexivity|].
  simpl. destruct (get i s) as [c|] eqn:G; [|exact IH].
  now rewrite (str_in_char_get _ _ _ _ H G).
Qed.

Lemma delete_matches_no_char (a : ascii) (f : string -> nat) (s : string)
      (skip : nat) :
  str_in (String a EmptyString) s = false ->
  str_in (String a EmptyString) (delete_matches f skip s) = false.
Proof.
  revert skip; induction s as [|c s IH]; intros skip H; [exact H|].
  rewrite str_in_char in H. apply orb_false_iff in H as [Hc Hs].
  cbn [delete_matches].
  destruct skip as [|k]; [|now apply IH].
  destruct (f (String c s)); [|now apply IH].
  rewrite str_in_char, Hc. now apply IH.
Qed.

Lemma strip_fences_no_char (a : ascii) (s : string) :
  str_in (String a EmptyString) s = false ->
  str_in (String a EmptyString) (strip_fences s) = false.
Proof.
  intros H. unfold strip_fences. now do 2 apply delete_matches_no_char.
Qed.

Lemma start_idxs_sorted (s : string) : StronglySorted lt (start_idxs s).
Proof.
  unfold start_idxs. generalize 0%nat as a.
  induction (length s) as [|n IH]; intros a; simpl; [constructor|].
  destruct (match get a s with Some c => (c =? lbrace)%char | None => false end).
  - constructor; [apply IH|].
    apply Forall_forall. intros j Hj.
    apply filter_In in Hj as [Hj _]. apply in_seq in Hj. lia.
  - apply IH.
Qed.

(** ** The brace scan against its specification *)

Lemma balance_step (s : string) (start k : nat) (c : ascii) :
  get (start + k) s = Some c ->
  brace_balance (substring start (S k) s) =
  brace_balance (substring start k s) + brace_delta c.
Proof.
  revert start k; induction s as [|d s IH]; intros start k G; [discriminate|].
  destruct start as [|start].
  - destruct k as [|k]; simpl in G.
    + injection G as ->. simpl. rewrite substring_zero. simpl. lia.
    + change (substring 0 (S (S k)) (String d s))
        with (String d (substring 0 (S k) s)).
      change (substring 0 (S k) (String d s))
        with (String d (substring 0 k s)).
      cbn [brace_balance]. rewrite (IH 0%nat k G). lia.
  - simpl in G. simpl. now apply IH.
Qed.

Section ScanFacts.

Variable loads : string -> option JSONValue.

Lemma scan_from_refines (s : string) (start : nat) :
  get start s = Some lbrace ->
  forall (n i : nat) (depth : Z),
    (start <= i)%nat ->
    (i + n = length s)%nat ->
    depth = brace_balance (substring start (i - start) s) ->
    i = start \/ 1 <= depth ->
    scan_from loads s start (seq i n) depth =
    match find (fun j => brace_balance (substring start (j + 1 - start) s) =? 0)
               (seq i n) with
    | Some j => loads (substring start (j + 1 - start) s)
    | None => None
    end.
Proof.
  intros Hstart. induction n as [|n IH]; intros i depth Hle Hlen Hd Hinv;
    [reflexivity|].
  cbn [seq scan_from find].
  destruct (get_lt_some i s ltac:(lia)) as [c G]. rewrite G.
  assert (Hbal : brace_balance (substring start (i + 1 - start) s) =
                 depth + brace_delta c).
  { replace (i + 1 - start)%nat with (S (i - start)) by lia.
    rewrite (balance_step s start (i - start) c), Hd; [reflexivity|].
    now replace (start + (i - start))%nat with i by lia. }
  assert (Hd0 : i = start -> depth = 0 /\ c = lbrace).
  { intros ->. rewrite Hstart in G. injection G as <-.
    rewrite Hd, Nat.sub_diag, substring_zero. now split. }
  rewrite Hbal. unfold brace_delta.
  assert (Hnext : forall d', d' = depth + brace_delta c -> 1 <= d' ->
            scan_from loads s start (seq (S i) n) d' =
            match find (fun j => brace_balance
                                   (substring start (j + 1 - start) s) =? 0)
                       (seq (S i) n) with
            | Some j => loads (substring start (j + 1 - start) s)
            | None => None
            end).
  { intros d' Hd' Hpos. apply IH; [lia|lia| |right; exact Hpos].
    replace (S i - start)%nat with (S (i - start)) by lia.
    rewrite (balance_step s start (i - start) c), <- Hd; [exact Hd'|].
    now replace (start + (i - start))%nat with i by lia. }
  unfold brace_delta in Hnext.
  destruct (c =? lbrace)%char eqn:El.
  - assert (0 <= depth) by (destruct Hinv as [E|]; [destruct (Hd0 E)|]; lia).
    destruct (Z.eqb_spec (depth + 1) 0); [lia|].
    apply Hnext; [reflexivity|lia].
  - assert (1 <= depth).
    { destruct Hinv as [E|]; [|assumption].
      destruct (Hd0 E) as [_ Ec]. rewrite Ec, Ascii.eqb_refl in El.
      discriminate. }
    destruct (c =? rbrace)%char.
    + replace (depth + -1) with (depth - 1) by lia.
      destruct (Z.eqb_spec (depth - 1) 0); [reflexivity|].
      apply Hnext; lia.
    + rewrite Z.add_0_r. destruct (Z.eqb_spec depth 0); [lia|].
      apply Hnext; lia.
Qed.

Lemma scan_from_candidate (s : string) (start : nat) :
  get start s = Some lbrace ->
  scan_from loads s start (seq start (length s - start)) 0 =
  match candidate_at s start with
  | Some c => loads c
  | None => None
  end.
Proof.
  intros Hstart. pose proof (get_some_lt _ _ _ Hstart).
  rewrite (scan_from_refines s start Hstart); [|lia|lia| |now left].
  - unfold candidate_at, first_closure. now destruct (find _ _).
  - now rewrite Nat.sub_diag, substring_zero.
Qed.

Lemma scan_starts_refines (s : string) (starts : list nat) :
  (forall start, In start starts -> get start s = Some lbrace) ->
  scan_starts loads s starts = leftmost_parse loads s starts.
Proof.
  induction starts as [|start starts IH]; intros H; [reflexivity|].
  cbn [scan_starts leftmost_parse].
  rewrite scan_from_candidate by (apply H; now left).
  rewrite IH by (intros; apply H; now right).
  destruct (candidate_at s start) as [c|]; [|reflexivity].
  now destruct (loads c).
Qed.

(** C5: the salvage cleans the text of its fences and returns what the
    brace scan of the cleaned string finds, None when it finds nothing.
    The scan tries the positions of the opening braces of the cleaned
    string, all of them and in ascending order; at a start it tries one
    candidate, the text up to the first closing brace at which the depth
    is back to zero, and it returns the parse of the leftmost start whose
    candidate parses; a start whose candidate does not parse is given up
    for the next one. *)
Theorem extract_scan_leftmost_candidate (s s_clean : string) :
  (forall i, In i (start_idxs s_clean) <-> get i s_clean = Some lbrace) /\
  StronglySorted lt (start_idxs s_clean) /\
  scan_starts loads s_clean (start_idxs s_clean) =
  leftmost_parse loads s_clean (start_idxs s_clean) /\
  _extract_json_from_text loads s =
  match s with
  | EmptyString => JNull
  | String _ _ =>
      match leftmost_parse loads (strip_fences s)
              (start_idxs (strip_fences s)) with
      | Some v => v
      | None => JNull
      end
  end.
Proof.
  split; [|split; [|split]].
  - intros i. apply start_idxs_in.
  - apply start_idxs_sorted.
  - apply scan_starts_refines. intros start. apply start_idxs_in.
  - unfold _extract_json_from_text. destruct s as [|c s]; [reflexivity|].
    rewrite scan_starts_refines; [reflexivity|].
    intros start. apply start_idxs_in.
Qed.

End ScanFacts.

Lemma extract_scan_leftmost_candidate_witness :
  _extract_json_from_text Json.loads
    (Json.q "see {bad} then {'a': 1} and {'b': 2}") =
  JObject [("a", JInt 1)].
Proof.
  destruct (extract_scan_leftmost_candidate Json.loads
              (Json.q "see {bad} then {'a': 1} and {'b': 2}")
              (Json.q "see {bad} then {'a': 1} and {'b': 2}"))
    as [_ [_ [_ E]]].
  etransitivity; [exact E|]. vm_compute. reflexivity.
Defined.

(** ** Recovery *)

Section RecoveryFacts.

Variable loads : string -> option JSONValue.

Lemma scan_from_loads (s : string) (start : nat) (range : list nat)
      (depth : Z) (v : JSONValue) :
  scan_from loads s start range depth = Some v ->
  exists i, In i range /\ loads (substring start (i + 1 - start) s) = Some v.
Proof.
  revert depth; induction range as [|i range IH]; intros depth H;
    [discriminate|].
  cbn [scan_from] in H.
  assert (Hrec : forall d, scan_from loads s start range d = Some v ->
            exists j, In j (i :: range) /\
                      loads (substring start (j + 1 - start) s) = Some v).
  { intros d Hd. destruct (IH d Hd) as [j [Hj Hl]].
    exists j. split; [now right|assumption]. }
  destruct (get i s) as [c|]; [|discriminate].
  destruct (c =? lbrace)%char; [now apply (Hrec (depth + 1))|].
  destruct (c =? rbrace)%char; [|now apply (Hrec depth)].
  destruct (depth - 1 =? 0); [|now apply (Hrec (depth - 1))].
  exists i. split; [now left|assumption].
Qed.

Lemma scan_starts_loads (s : string) (starts : list nat) (v : JSONValue) :
  (forall start, In start starts -> get start s = Some lbrace) ->
  scan_starts loads s starts = Some v ->
  exists rest, loads (String lbrace rest) = Some v.
Proof.
  induction starts as [|start starts IH]; intros Hs H; [discriminate|].
  cbn [scan_starts] in H.
  destruct (scan_from loads s start (seq start (length s - start)) 0)
    as [w|] eqn:E.
  - injection H as ->. apply scan_from_loads in E as [i [Hi Hl]].
    apply in_seq in Hi.
    replace (i + 1 - start)%nat with (S (i - start)) in Hl by lia.
    rewrite (substring_head start _ s lbrace) in Hl by (apply Hs; now left).
    eauto.
  - apply IH; [|assumption]. intros; apply Hs; now right.
Qed.

Lemma extract_json_no_brace (s : string) :
  str_in (String lbrace EmptyString) s = false ->
  _extract_json_from_text loads s = JNull.
Proof.
  intros H. unfold _extract_json_from_text. destruct s; [reflexivity|].
  now rewrite (start_idxs_none _ (strip_fences_no_char _ _ H)).
Qed.

(** C2, as amended: a text without an opening brace that is not itself
    a JSON text is recovered as the wrapper whose one key, raw, holds the
    text as it came, fences included. *)
Theorem parsed_of_no_brace (s : string) :
  str_in (String lbrace EmptyString) s = false ->
  loads s = None ->
  parsed_of loads s = JObject [("raw", JString s)].
Proof.
  intros Hb Hl. unfold parsed_of.
  now rewrite Hl, extract_json_no_brace.
Qed.

(** A text that starts with an opening brace parses to a mapping or not
    at all. *)
Hypothesis loads_object :
  forall s v, loads (String lbrace s) = Some v -> exists d, v = JObject d.

Lemma extract_json_object_or_null (s : string) :
  _extract_json_from_text loads s = JNull \/
  exists d, _extract_json_from_text loads s = JObject d.
Proof.
  unfold _extract_json_from_text. destruct s as [|c s]; [now left|].
  destruct (scan_starts loads _ _) as [v|] eqn:E; [|now left].
  apply scan_starts_loads in E as [rest Hr];
    [|intros start; apply start_idxs_in].
  right. now apply (loads_object rest).
Qed.

(** C1, as amended: when the text is a JSON text, the recovered value is
    the value it denotes, of whatever kind; when it is not, the recovered
    value is a mapping, either an object found by the brace scan or the
    wrapper around the text. *)
Theorem parsed_of_direct_or_mapping (rawText : string) :
  match loads rawText with
  | Some v => parsed_of loads rawText = v
  | None =>
      parsed_of loads rawText = JObject [("raw", JString rawText)] \/
      exists d, parsed_of loads rawText = JObject d /\
                _extract_json_from_text loads rawText = JObject d
  end.
Proof.
  unfold parsed_of. destruct (loads rawText) as [v|]; [reflexivity|].
  destruct (extract_json_object_or_null rawText) as [E|[d E]]; rewrite E.
  - now left.
  - right. now exists d.
Qed.

End RecoveryFacts.

(** ** The JSON reader *)

Lemma json_parse_members_object (n : nat) (s : string)
      (acc : list (string * JSONValue)) (v : JSONValue) (r : string) :
  Json.parse_members n s acc = Some (v, r) -> exists d, v = JObject d.
Proof.
  revert s acc; induction n as [|n IH]; intros s acc H; [discriminate|].
  cbn [Json.parse_members] in H.
  destruct s as [|c s]; [discriminate|].
  destruct (c =? Json.dquote)%char; [|discriminate].
  destruct (Json.scanstring s) as [[key r1]|]; [|discriminate].
  destruct (Json.skip_ws r1) as [|c1 r2]; [discriminate|].
  destruct (c1 =? ":")%char; [|discriminate].
  destruct (Json.parse_value n (Json.skip_ws r2)) as [[w r3]|]; [|discriminate].
  destruct (Json.skip_ws r3) as [|c3 r4]; [discriminate|].
  destruct (c3 =? rbrace)%char; [injection H as <- _; eauto|].
  destruct (c3 =? ",")%char; [|discriminate].
  now apply IH in H.
Qed.

Lemma json_loads_object (s : string) (v : JSONValue) :
  Json.loads (String lbrace s) = Some v -> exists d, v = JObject d.
Proof.
  unfold Json.loads. cbn [Json.skip_ws]. change (Json.is_ws lbrace) with false.
  cbv iota. cbn [length Json.parse_value].
  change (lbrace =? Json.dquote)%char with false.
  change (lbrace =? lbrace)%char with true. cbv iota.
  destruct (Json.skip_ws s) as [|c' r']; [discriminate|].
  destruct (c' =? rbrace)%char.
  - destruct (Json.skip_ws r'); [|discriminate].
    intros H; injection H as <-. eauto.
  - destruct (Json.parse_members _ _ _) as [[w r]|] eqn:E; [|discriminate].
    apply json_parse_members_object in E as [d ->].
    destruct (Json.skip_ws r); [|discriminate].
    intros H; injection H as <-. eauto.
Qed.

Lemma json_loads_fence (s : string) : Json.loads (String backtick s) = None.
Proof. reflexivity. Qed.

(** ** Recovery on concrete texts *)

Lemma parsed_of_no_brace_witness :
  parsed_of Json.loads "sorry, no valid data" =
  JObject [("raw", JString "sorry, no valid data")].
Proof.
  apply (parsed_of_no_brace Json.loads "sorry, no valid data");
    vm_compute; reflexivity.
Defined.

(** C2 as first stated fails: a text without an opening brace can be a
    JSON text, and then the value it denotes is kept. *)
Lemma parsed_of_no_brace_counterexample :
  str_in (String lbrace EmptyString) "42" = false /\
  parsed_of Json.loads "42" = JInt 42 /\
  parsed_of Json.loads "42" <> JObject [("raw", JString "42")].
Proof.
  split; [|split]; [vm_compute; reflexivity ..|].
  vm_compute. discriminate.
Qed.

Lemma parsed_of_direct_or_mapping_witness :
  match Json.loads "Sure. {not json} {}" with
  | Some v => parsed_of Json.loads "Sure. {not json} {}" = v
  | None =>
      parsed_of Json.loads "Sure. {not json} {}" =
        JObject [("raw", JString "Sure. {not json} {}")] \/
      exists d, parsed_of Json.loads "Sure. {not json} {}" = JObject d /\
                _extract_json_from_text Json.loads "Sure. {not json} {}" =
                  JObject d
  end.
Proof.
  exact (parsed_of_direct_or_mapping Json.loads json_loads_object
           "Sure. {not json} {}").
Defined.

(** C1 as first stated fails: a JSON text that denotes an array, a
    number, a string, a boolean or null is recovered as that value. *)
Lemma parsed_of_mapping_counterexample :
  parsed_of Json.loads "[1, 2]" = JArray [JInt 1; JInt 2] /\
  parsed_of Json.loads "7" = JInt 7 /\
  parsed_of Json.loads (Json.q "'text'") = JString "text" /\
  parsed_of Json.loads "true" = JBool true /\
  parsed_of Json.loads "null" = JNull /\
  ~ (exists d, parsed_of Json.loads "[1, 2]" = JObject d).
Proof.
  repeat split; try (vm_compute; reflexivity).
  intros [d H]. vm_compute in H. discriminate.
Qed.

(** ** Fences around a mapping text *)

Lemma string_length_app (s u : string) :
  length (s ++ u) = (length s + length u)%nat.
Proof. induction s as [|c s IH]; simpl; [reflexivity|now rewrite IH]. Qed.

Lemma prefix_fence_app_lf (x y : string) :
  prefix fence (x ++ String LF y) = true -> prefix fence x = true.
Proof.
  unfold fence.
  destruct x as [|c1 [|c2 [|c3 x]]]; cbn [append prefix];
    repeat match goal with
           | |- context [ascii_dec ?a ?b] => destruct (ascii_dec a b)
           end;
    try discriminate; try reflexivity;
    intros _; now rewrite prefix_empty.
Qed.

Lemma str_in_cons_false (w : string) (c : ascii) (s : string) :
  str_in w (String c s) = false ->
  prefix w (String c s) = false /\ str_in w s = false.
Proof. cbn [str_in]. intros H. now apply orb_false_iff in H. Qed.

Lemma fence_not_prefix (c : ascii) (m y : string) :
  prefix fence (String c m) = false ->
  prefix fence (String c (m ++ String LF y)) = false.
Proof.
  intros H. destruct (prefix fence (String c (m ++ String LF y))) eqn:E;
    [|reflexivity].
  apply (prefix_fence_app_lf (String c m) y) in E. congruence.
Qed.

Lemma fence_open_kept (m : string) :
  str_in fence m = false ->
  delete_matches fence_open_len 0 (m ++ String LF fence) =
  (m ++ String LF fence)%string.
Proof.
  induction m as [|c m IH]; intros H; [vm_compute; reflexivity|].
  apply str_in_cons_false in H as [Hp Hs].
  cbn [append delete_matches].
  unfold fence_open_len at 1. rewrite (fence_not_prefix c m fence Hp).
  now rewrite IH.
Qed.

Lemma fence_close_dropped (m : string) :
  str_in fence m = false ->
  delete_matches fence_len 0 (m ++ String LF fence) =
  (m ++ String LF EmptyString)%string.
Proof.
  induction m as [|c m IH]; intros H; [vm_compute; reflexivity|].
  apply str_in_cons_false in H as [Hp Hs].
  cbn [append delete_matches].
  unfold fence_len at 1. rewrite (fence_not_prefix c m fence Hp).
  now rewrite IH.
Qed.

Lemma fence_open_len_hint (rest : string) :
  fence_open_len (fence ++ "json" ++ String LF rest) = 8%nat.
Proof.
  unfold fence_open_len, fence. cbn. now rewrite prefix_empty.
Qed.

Lemma fence_open_dropped (rest : string) :
  delete_matches fence_open_len 0 (fence ++ "json" ++ String LF rest) =
  delete_matches fence_open_len 0 rest.
Proof.
  pose proof (fence_open_len_hint rest) as H.
  unfold fence in *. cbn [append] in *.
  cbn [delete_matches]. now rewrite H.
Qed.

Lemma strip_fences_fenced (m : string) :
  str_in fence m = false ->
  strip_fences (fenced m) = (m ++ String LF EmptyString)%string.
Proof.
  intros H. unfold strip_fences, fenced.
  now rewrite fence_open_dropped, fence_open_kept, fence_close_dropped.
Qed.

Lemma find_app_some {A : Type} (f : A -> bool) (l1 l2 : list A) (x : A) :
  find f l1 = Some x -> find f (l1 ++ l2) = Some x.
Proof.
  induction l1 as [|a l1 IH]; simpl; [discriminate|].
  destruct (f a); auto.
Qed.

Lemma find_ext_in {A : Type} (f g : A -> bool) (l : list A) :
  (forall x, In x l -> f x = g x) -> find f l = find g l.
Proof.
  induction l as [|a l IH]; intros H; [reflexivity|].
  simpl. rewrite (H a) by now left.
  rewrite IH; [reflexivity|]. intros; apply H; now right.
Qed.

Lemma first_closure_app (s u : string) (start i : nat) :
  first_closure s start = Some i -> first_closure (s ++ u) start = Some i.
Proof.
  unfold first_closure. intros H.
  rewrite string_length_app.
  destruct (Nat.le_gt_cases start (length s)) as [L|L].
  - replace (length s + length u - start)%nat
      with ((length s - start) + length u)%nat by lia.
    rewrite seq_app. apply find_app_some. rewrite <- H.
    apply find_ext_in. intros j Hj. apply in_seq in Hj.
    rewrite substring_app_l by lia. reflexivity.
  - replace (length s - start)%nat with 0%nat in H by lia. discriminate.
Qed.

Lemma get_app_lt (i : nat) (s u : string) :
  (i < length s)%nat -> get i (s ++ u) = get i s.
Proof.
  intros L. destruct (get_lt_some i s L) as [c G].
  rewrite G. now apply get_app_l.
Qed.

Lemma get_app_end (s : string) (c : ascii) :
  get (length s) (s ++ String c EmptyString) = Some c.
Proof. induction s as [|d s IH]; simpl; auto. Qed.

Lemma start_idxs_app_lf (m : string) :
  start_idxs (m ++ String LF EmptyString) = start_idxs m.
Proof.
  unfold start_idxs. rewrite string_length_app. cbn [length].
  rewrite seq_app, filter_app. cbn [seq filter Nat.add].
  rewrite get_app_end. change (LF =? lbrace)%char with false.
  rewrite app_nil_r. apply filter_ext_in.
  intros i Hi. apply in_seq in Hi. now rewrite get_app_lt by lia.
Qed.

Lemma first_closure_lt (s : string) (start i : nat) :
  first_closure s start = Some i -> (start <= i < length s)%nat.
Proof.
  unfold first_closure. intros H. apply find_some in H as [H _].
  apply in_seq in H. lia.
Qed.

Lemma candidate_at_app (s u : string) (start : nat) (body : string) :
  candidate_at s start = Some body -> candidate_at (s ++ u) start = Some body.
Proof.
  unfold candidate_at. destruct (first_closure s start) as [i|] eqn:E;
    [|discriminate].
  intros H. rewrite (first_closure_app s u start i E).
  pose proof (first_closure_lt s start i E).
  now rewrite substring_app_l by lia.
Qed.

Section FenceFacts.

Variable loads : string -> option JSONValue.

(** A text that starts with a backtick is no JSON text. *)
Hypothesis loads_fence : forall s, loads (String backtick s) = None.

(** C4, as amended: for a JSON text of a mapping that holds no run of
    three backticks and whose first candidate in the brace scan, the text
    from its first opening brace to the first closing brace at which the
    depth is back to zero, parses to the mapping the whole text denotes,
    the fenced form is recovered as the text itself is: as that mapping. *)
Theorem parsed_of_fenced (m : string) (d : list (string * JSONValue))
        (start : nat) (rest : list nat) (body : string) :
  loads m = Some (JObject d) ->
  str_in fence m = false ->
  start_idxs m = start :: rest ->
  candidate_at m start = Some body ->
  loads body = Some (JObject d) ->
  parsed_of loads (fenced m) = parsed_of loads m /\
  parsed_of loads m = JObject d.
Proof.
  intros Hm Hf Hs Hc Hb.
  assert (Hdirect : parsed_of loads m = JObject d)
    by (unfold parsed_of; now rewrite Hm).
  split; [|exact Hdirect]. rewrite Hdirect.
  unfold parsed_of.
  assert (Hfenced : loads (fenced m) = None) by apply loads_fence.
  rewrite Hfenced.
  assert (E : _extract_json_from_text loads (fenced m) = JObject d);
    [|now rewrite E].
  unfold _extract_json_from_text.
  change (fenced m) with
    (String backtick (String backtick (String backtick
       ("json" ++ String LF (m ++ String LF fence))))) at 1.
  cbv iota. rewrite (strip_fences_fenced m Hf).
  rewrite scan_starts_refines by (intros i; apply start_idxs_in).
  rewrite start_idxs_app_lf, Hs. cbn [leftmost_parse].
  now rewrite (candidate_at_app m _ start body Hc), Hb.
Qed.

End FenceFacts.

Lemma parsed_of_fenced_witness :
  parsed_of Json.loads
    (fenced (Json.q " {'clauses': [{'title': 'Term'}], 'parties': []} ")) =
  parsed_of Json.loads
    (Json.q " {'clauses': [{'title': 'Term'}], 'parties': []} ") /\
  parsed_of Json.loads
    (Json.q " {'clauses': [{'title': 'Term'}], 'parties': []} ") =
  JObject [("clauses", JArray [JObject [("title", JString "Term")]]);
           ("parties", JArray [])].
Proof.
  apply (parsed_of_fenced Json.loads json_loads_fence
           (Json.q " {'clauses': [{'title': 'Term'}], 'parties': []} ")
           [("clauses", JArray [JObject [("title", JString "Term")]]);
            ("parties", JArray [])]
           1%nat [14%nat]
           (Json.q "{'clauses': [{'title': 'Term'}], 'parties': []}"));
    vm_compute; reflexivity.
Defined.

(** C4 as first stated fails on a mapping text with three backticks in a
    string, which the stripping deletes, and on one with a brace in a
    string, which ends the candidate too early. *)
Lemma parsed_of_fenced_counterexample :
  (Json.loads (Json.q "{'a': '```'}") = Some (JObject [("a", JString "```")]) /\
   parsed_of Json.loads (Json.q "{'a': '```'}") = JObject [("a", JString "```")] /\
   parsed_of Json.loads (fenced (Json.q "{'a': '```'}")) =
     JObject [("a", JString EmptyString)]) /\
  (Json.loads (Json.q "{'a': '}'}") = Some (JObject [("a", JString "}")]) /\
   parsed_of Json.loads (Json.q "{'a': '}'}") = JObject [("a", JString "}")] /\
   parsed_of Json.loads (fenced (Json.q "{'a': '}'}")) =
     JObject [("raw", JString (fenced (Json.q "{'a': '}'}")))]) /\
  parsed_of Json.loads (fenced (Json.q "{'a': '```'}")) <>
    parsed_of Json.loads (Json.q "{'a': '```'}") /\
  parsed_of Json.loads (fenced (Json.q "{'a': '}'}")) <>
    parsed_of Json.loads (Json.q "{'a': '}'}").
Proof.
  repeat split; try (vm_compute; reflexivity); vm_compute; discriminate.
Qed.

(** ** Binary64 division of two integers *)

Lemma digits2_pos_size (p : positive) : digits2_pos p = Pos.size p.
Proof. induction p; simpl; congruence. Qed.

Lemma Zdigits2_log2 (p : positive) : Zdigits2 (Zpos p) = Z.log2 (Zpos p) + 1.
Proof.
  unfold Zdigits2. rewrite digits2_pos_size.
  destruct p; simpl; lia.
Qed.

Lemma Zdigits2_unique (z d : Z) :
  2 ^ (d - 1) <= z < 2 ^ d -> 1 <= d -> Zdigits2 z = d.
Proof.
  intros H Hd. assert (0 < z) by (pose proof (Z.pow_pos_nonneg 2 (d - 1)); lia).
  destruct z as [|p|p]; try lia.
  rewrite Zdigits2_log2.
  rewrite (Z.log2_unique (Zpos p) (d - 1)); [lia|lia|].
  replace (Z.succ (d - 1)) with d by lia. exact H.
Qed.

Lemma Zdigits2_bounds (z : Z) :
  0 < z -> 2 ^ (Zdigits2 z - 1) <= z < 2 ^ Zdigits2 z /\ 1 <= Zdigits2 z.
Proof.
  intros H. destruct z as [|p|p]; try lia.
  rewrite Zdigits2_log2.
  pose proof (Z.log2_spec (Zpos p) ltac:(lia)).
  pose proof (Z.log2_nonneg (Zpos p)).
  replace (Z.log2 (Zpos p) + 1 - 1) with (Z.log2 (Zpos p)) by lia.
  replace (Z.log2 (Zpos p) + 1) with (Z.succ (Z.log2 (Zpos p))) by lia.
  lia.
Qed.

Lemma rne_bounds (x : Z) (l : location) :
  x <= round_nearest_even x l <= x + 1.
Proof.
  unfold round_nearest_even. destruct l as [|[]]; try lia.
  destruct (Z.even x); lia.
Qed.

Lemma shr_1_m (m : Z) (l : location) :
  0 <= m -> shr_m (shr_1 (shr_record_of_loc m l)) = m / 2.
Proof.
  intros H. rewrite <- Z.div2_div.
  destruct l as [|[]]; destruct m as [|[p|p|]|]; try lia; reflexivity.
Qed.

Lemma loc_of_shr_record_of_loc (m : Z) (l : location) :
  loc_of_shr_record (shr_record_of_loc m l) = l.
Proof. now destruct l as [|[]]. Qed.

Lemma shr_m_of_loc (m : Z) (l : location) : shr_m (shr_record_of_loc m l) = m.
Proof. now destruct l as [|[]]. Qed.

(** The first shift of the rounding, on a mantissa of 53 or of 54 digits. *)
Lemma shr_fexp_53 (m e : Z) (l : location) :
  2 ^ 52 <= m < 2 ^ 53 -> -1074 <= e ->
  shr_fexp 53 1024 m e l = (shr_record_of_loc m l, e).
Proof.
  intros Hm He. unfold shr_fexp.
  rewrite (Zdigits2_unique m 53) by lia.
  unfold fexp, emin.
  replace (Z.max (53 + e - 53) (3 - 1024 - 53) - e) with 0 by lia.
  reflexivity.
Qed.

Lemma shr_fexp_54 (m e : Z) (l : location) :
  2 ^ 53 <= m < 2 ^ 54 -> -1074 <= e ->
  shr_fexp 53 1024 m e l = (shr_1 (shr_record_of_loc m l), e + 1).
Proof.
  intros Hm He. unfold shr_fexp.
  rewrite (Zdigits2_unique m 54) by lia.
  unfold fexp, emin.
  replace (Z.max (54 + e - 53) (3 - 1024 - 53) - e) with 1 by lia.
  reflexivity.
Qed.

Lemma binary_round_aux_53 (mx ex : Z) (lx : location) :
  2 ^ 52 <= mx < 2 ^ 54 -> -1074 <= ex <= 900 ->
  exists (m : positive) (e : Z),
    binary_round_aux 53 1024 false mx ex lx = S754_finite false m e /\
    ex <= e <= ex + 2 /\
    2 ^ 52 <= Zpos m < 2 ^ 53 /\
    mx / 2 ^ (e - ex) <= Zpos m <= mx / 2 ^ (e - ex) + 1.
Proof.
  intros Hm He. unfold binary_round_aux.
  assert (Hfin : forall (m1 e1 : Z),
            2 ^ 52 <= m1 <= 2 ^ 53 -> -1074 <= e1 <= 901 ->
            exists (m : positive) (e : Z),
              (let '(mrs'', e'') := shr_fexp 53 1024 m1 e1 loc_Exact in
               match shr_m mrs'' with
               | 0 => S754_zero false
               | Zpos m => if e'' <=? 1024 - 53
                           then S754_finite false m e'' else S754_infinity false
               | Zneg _ => S754_nan
               end) = S754_finite false m e /\
              e1 <= e <= e1 + 1 /\
              2 ^ 52 <= Zpos m < 2 ^ 53 /\
              (m1 < 2 ^ 53 -> e = e1 /\ Zpos m = m1) /\
              (m1 = 2 ^ 53 -> e = e1 + 1 /\ Zpos m = 2 ^ 52)).
  { intros m1 e1 Hm1 He1.
    destruct (Z.eq_dec m1 (2 ^ 53)) as [->|Hne].
    - rewrite shr_fexp_54 by lia. rewrite shr_1_m by lia.
      change (2 ^ 53 / 2) with (Zpos (Z.to_pos (2 ^ 52))).
      destruct (Z.leb_spec (e1 + 1) (1024 - 53)); [|lia].
      eexists _, _. split; [reflexivity|].
      change (Zpos (Z.to_pos (2 ^ 52))) with (2 ^ 52). lia.
    - rewrite shr_fexp_53 by lia. rewrite shr_m_of_loc.
      destruct m1 as [|p|p]; try lia.
      destruct (Z.leb_spec e1 (1024 - 53)); [|lia].
      eexists _, _. split; [reflexivity|]. lia. }
  destruct (Z.lt_ge_cases mx (2 ^ 53)) as [Hlt|Hge].
  - rewrite shr_fexp_53 by lia.
    rewrite shr_m_of_loc, loc_of_shr_record_of_loc.
    pose proof (rne_bounds mx lx) as Hr.
    destruct (Hfin (round_nearest_even mx lx) ex ltac:(lia) ltac:(lia))
      as [m [e [E [He' [Hmm [H1 H2]]]]]].
    exists m, e. split; [exact E|]. split; [lia|]. split; [exact Hmm|].
    destruct (Z.eq_dec (round_nearest_even mx lx) (2 ^ 53)) as [Heq|Hne].
    + destruct (H2 Heq) as [-> ->].
      replace (ex + 1 - ex) with 1 by lia.
      assert (mx = 2 ^ 53 - 1) as -> by lia.
      assert (Hq : (2 ^ 53 - 1) / 2 ^ 1 = 2 ^ 52 - 1) by (vm_compute; reflexivity).
      rewrite Hq. lia.
    + destruct (H1 ltac:(lia)) as [-> ->].
      rewrite Z.sub_diag, Z.pow_0_r, Z.div_1_r. lia.
  - rewrite shr_fexp_54 by lia.
    set (mrs := shr_1 (shr_record_of_loc mx lx)).
    assert (Hmrs : shr_m mrs = mx / 2) by (apply shr_1_m; lia).
    rewrite Hmrs.
    assert (Hhalf : 2 ^ 52 <= mx / 2 < 2 ^ 53).
    { split; [apply Z.div_le_lower_bound; lia|
              apply Z.div_lt_upper_bound; lia]. }
    pose proof (rne_bounds (mx / 2) (loc_of_shr_record mrs)) as Hr.
    destruct (Hfin (round_nearest_even (mx / 2) (loc_of_shr_record mrs))
                (ex + 1) ltac:(lia) ltac:(lia))
      as [m [e [E [He' [Hmm [H1 H2]]]]]].
    exists m, e. split; [exact E|]. split; [lia|]. split; [exact Hmm|].
    destruct (Z.eq_dec (round_nearest_even (mx / 2) (loc_of_shr_record mrs))
                (2 ^ 53)) as [Heq|Hne].
    + destruct (H2 Heq) as [-> ->].
      replace (ex + 1 + 1 - ex) with 2 by lia.
      assert (Hq : mx / 2 = 2 ^ 53 - 1) by lia.
      change (2 ^ 2) with (2 * 2). rewrite <- Z.div_div by lia.
      assert (Hq' : (2 ^ 53 - 1) / 2 = 2 ^ 52 - 1) by (vm_compute; reflexivity).
      rewrite Hq, Hq'. lia.
    + destruct (H1 ltac:(lia)) as [-> ->].
      replace (ex + 1 - ex) with 1 by lia. change (2 ^ 1) with 2. lia.
Qed.

Lemma pow2_pos (k : Z) : 0 <= k -> 0 < 2 ^ k.
Proof. intros; apply Z.pow_pos_nonneg; lia. Qed.

(** The quotient of two positive integers whose ratio is at most 100: the
    mantissa and exponent of the rounded quotient. *)
Lemma SFdiv_small_ratio (pa pb : positive) :
  Zpos pb <= 2 ^ 45 -> Zpos pa <= 100 * Zpos pb ->
  exists (m : positive) (j : Z),
    SFdiv 53 1024 (S754_finite false pa 0) (S754_finite false pb 0) =
      S754_finite false m (- j) /\
    46 <= j /\
    Zpos pa * 2 ^ j / Zpos pb <= Zpos m <= Zpos pa * 2 ^ j / Zpos pb + 1.
Proof.
  intros Hb Hab. set (a := Zpos pa) in *. set (b := Zpos pb) in *.
  assert (Ha0 : 0 < a) by (unfold a; lia).
  assert (Hb0 : 0 < b) by (unfold b; lia).
  destruct (Zdigits2_bounds a Ha0) as [[Ha1 Ha2] Hd1].
  destruct (Zdigits2_bounds b Hb0) as [[Hb1 Hb2] Hd2].
  set (d1 := Zdigits2 a) in *. set (d2 := Zdigits2 b) in *.
  assert (Hd2' : d2 <= 46).
  { destruct (Z.le_gt_cases d2 46) as [|G]; [assumption|].
    pose proof (Z.pow_le_mono_r 2 46 (d2 - 1) ltac:(lia) ltac:(lia)). lia. }
  assert (Hd1' : d1 <= d2 + 7).
  { destruct (Z.le_gt_cases d1 (d2 + 7)) as [|G]; [assumption|].
    pose proof (Z.pow_le_mono_r 2 (d2 + 7) (d1 - 1) ltac:(lia) ltac:(lia)).
    rewrite Z.pow_add_r in * by lia. lia. }
  set (k := 53 - (d1 - d2)).
  assert (Hk : 46 <= k <= 98) by (unfold k; lia).
  pose proof (pow2_pos k ltac:(lia)) as Hpk.
  unfold SFdiv, SFdiv_core_binary. fold a b d1 d2.
  assert (He' : Z.min (fexp 53 1024 (d1 + 0 - (d2 + 0))) (0 - 0) = - k).
  { unfold fexp, emin, k. lia. }
  rewrite He'.
  replace (0 - 0 - - k) with k by lia.
  assert (Hshift : match k with
                   | 0 => a | Zpos _ => Z.shiftl a k | Zneg _ => 0
                   end = a * 2 ^ k).
  { destruct k; try lia. apply Z.shiftl_mul_pow2. lia. }
  rewrite Hshift.
  pose proof (Z.div_eucl_eq (a * 2 ^ k) b ltac:(lia)) as Heq.
  assert (Hq : fst (Z.div_eucl (a * 2 ^ k) b) = a * 2 ^ k / b) by reflexivity.
  destruct (Z.div_eucl (a * 2 ^ k) b) as [q r]. cbn [fst] in Hq. subst q.
  set (q := a * 2 ^ k / b).
  assert (Hpow1 : 2 ^ (d1 - 1) * 2 ^ k = 2 ^ 52 * 2 ^ d2).
  { rewrite <- !Z.pow_add_r by lia. f_equal. unfold k. lia. }
  assert (Hpow2 : 2 ^ d1 * 2 ^ k = 2 ^ 54 * 2 ^ (d2 - 1)).
  { rewrite <- !Z.pow_add_r by lia. f_equal. unfold k. lia. }
  assert (Hq : 2 ^ 52 <= q < 2 ^ 54).
  { unfold q. split.
    - apply Z.div_le_lower_bound; [lia|].
      apply Z.le_trans with (2 ^ 52 * 2 ^ d2); [nia|].
      rewrite <- Hpow1. nia.
    - apply Z.div_lt_upper_bound; [lia|].
      apply Z.lt_le_trans with (2 ^ d1 * 2 ^ k); [nia|].
      rewrite Hpow2. nia. }
  destruct (binary_round_aux_53 q (- k) (new_location b r) Hq ltac:(lia))
    as [m [e [E [He [Hm Hbr]]]]].
  cbn [xorb]. rewrite E.
  exists m, (- e). rewrite Z.opp_involutive. split; [reflexivity|].
  set (j := - e) in *. set (t := e - - k) in *.
  assert (Ht : 0 <= t <= 2) by (unfold t; lia).
  assert (Hkj : k = j + t) by (unfold j, t; lia).
  pose proof (pow2_pos j ltac:(lia)) as Hpj.
  pose proof (pow2_pos t ltac:(lia)) as Hpt.
  assert (HQ : q / 2 ^ t = a * 2 ^ j / b).
  { unfold q. rewrite Z.div_div by lia.
    rewrite Hkj, Z.pow_add_r by lia.
    rewrite Z.mul_assoc. apply Z.div_mul_cancel_r; lia. }
  rewrite HQ in Hbr. split; [|exact Hbr].
  destruct (Z.le_gt_cases 46 j) as [|G]; [assumption|exfalso].
  assert (a * 2 ^ j / b <= 100 * 2 ^ j).
  { apply Z.div_le_upper_bound; [lia|]. nia. }
  pose proof (Z.pow_le_mono_r 2 j 45 ltac:(lia) ltac:(lia)). lia.
Qed.

Lemma true_div_floor (a b : Z) :
  1 <= b <= 2 ^ 45 -> 0 <= a <= 100 * b ->
  exists x, true_div a b = Ok x /\ py_int x = Ok (a / b).
Proof.
  intros Hb Ha. unfold true_div.
  destruct (Z.eqb_spec b 0); [lia|].
  destruct b as [|pb|pb]; try lia.
  destruct a as [|pa|pa]; try lia.
  - eexists. split; reflexivity.
  - destruct (SFdiv_small_ratio pa pb ltac:(lia) ltac:(lia))
      as [m [j [E [Hj Hm]]]].
    cbn [float_of_int]. rewrite E. eexists. split; [reflexivity|].
    cbn [py_int]. destruct (Z.leb_spec 0 (- j)); [lia|].
    rewrite Z.opp_involutive. f_equal.
    set (a := Zpos pa) in *. set (b := Zpos pb) in *.
    pose proof (pow2_pos j ltac:(lia)) as Hpj.
    pose proof (Z.pow_le_mono_r 2 46 j ltac:(lia) ltac:(lia)) as Hj46.
    set (P := 2 ^ j) in *. set (fl := a / b).
    pose proof (Z.mul_div_le a b ltac:(lia)) as Hn1. fold fl in Hn1.
    pose proof (Z.mul_succ_div_gt a b ltac:(lia)) as Hn2. fold fl in Hn2.
    assert (HQ1 : fl * P <= a * P / b).
    { apply Z.div_le_lower_bound; [lia|]. nia. }
    assert (HQ2 : a * P / b < (fl + 1) * P - 1).
    { apply Z.div_lt_upper_bound; [lia|]. nia. }
    symmetry. apply Z.div_unique with (Zpos m - fl * P); [|lia].
    left. lia.
Qed.

(** ** Scores of the highlights and their average *)

Lemma tier_weight_pos (level : string) : 0 < tier_weight level.
Proof.
  unfold tier_weight.
  destruct (level =? "high")%string; destruct (level =? "medium")%string; lia.
Qed.

Lemma presence_total_nonneg (t : string) : 0 <= presence_total t.
Proof.
  unfold presence_total.
  induction keywords as [|lw l IH]; cbn [map fold_right]; [lia|].
  pose proof (tier_weight_pos (fst lw)).
  destruct (str_in (snd lw) t); lia.
Qed.

Lemma keyword_risk_score_range (text : string) :
  0 <= _keyword_risk_score text <= 100.
Proof.
  rewrite keyword_risk_score_presence.
  pose proof (presence_total_nonneg (lower text)). lia.
Qed.

Lemma fold_left_add_acc (l : list Z) (acc : Z) :
  fold_left Z.add l acc = acc + fold_left Z.add l 0.
Proof.
  revert acc; induction l as [|x l IH]; intros acc; simpl; [lia|].
  rewrite (IH (acc + x)), (IH x). lia.
Qed.

Lemma sum_scores_range (scores : list Z) :
  Forall (fun s => 0 <= s <= 100) scores ->
  0 <= fold_left Z.add scores 0 <= 100 * Z.of_nat (List.length scores).
Proof.
  induction 1 as [|x l Hx Hl IH]; [simpl; lia|].
  cbn [fold_left List.length]. rewrite fold_left_add_acc. lia.
Qed.

Lemma avg_score_of_floor (scores : list Z) :
  scores <> [] ->
  Forall (fun s => 0 <= s <= 100) scores ->
  Z.of_nat (List.length scores) <= 2 ^ 45 ->
  avg_score_of scores =
  Ok (fold_left Z.add scores 0 / Z.of_nat (List.length scores)).
Proof.
  intros Hne Hr Hlen. unfold avg_score_of.
  assert (1 <= Z.of_nat (List.length scores))
    by (destruct scores; [contradiction|cbn [List.length]; lia]).
  rewrite Z.max_r by lia.
  pose proof (sum_scores_range scores Hr).
  destruct (true_div_floor (fold_left Z.add scores 0)
              (Z.of_nat (List.length scores)) ltac:(lia) ltac:(lia))
    as [x [-> Hx]].
  exact Hx.
Qed.

Lemma avg_score_of_zero (scores : list Z) :
  Forall (fun s => s = 0) scores -> avg_score_of scores = Ok 0.
Proof.
  intros H. unfold avg_score_of.
  assert (E : fold_left Z.add scores 0 = 0)
    by (induction H as [|x l -> _ IH]; [reflexivity|exact IH]).
  rewrite E. unfold true_div.
  destruct (Z.eqb_spec (Z.max 1 (Z.of_nat (List.length scores))) 0); [lia|].
  destruct (Z.max 1 (Z.of_nat (List.length scores))); try contradiction;
    reflexivity.
Qed.

Lemma clause_highlight_score (c : JSONValue) (h : ClauseHighlight) :
  clause_highlight c = Ok h ->
  score h = _keyword_risk_score (text h) /\
  bucket h = _map_score_to_bucket (score h).
Proof.
  unfold clause_highlight. intros H.
  destruct (match c with
            | JObject d =>
                match dict_get "text" d with Some v => v | None => JNull end
            | JString _ => c
            | _ => JString EmptyString
            end); try discriminate.
  injection H as <-. now split.
Qed.

Lemma clause_loop_scores (clauses : list JSONValue)
      (acc hs : list ClauseHighlight) :
  clause_loop clauses acc = Ok hs ->
  Forall (fun h => 0 <= score h <= 100) acc ->
  Forall (fun h => 0 <= score h <= 100) hs /\
  List.length hs = (List.length acc + List.length clauses)%nat.
Proof.
  revert acc; induction clauses as [|c clauses IH]; intros acc H Hacc.
  - injection H as <-. split; [assumption|simpl; lia].
  - cbn [clause_loop] in H.
    destruct (clause_highlight c) as [h|e] eqn:E; [|discriminate].
    cbn [bind] in H. apply IH in H as [Hf Hl].
    + split; [assumption|]. rewrite Hl, List.length_app. simpl. lia.
    + apply Forall_app. split; [assumption|]. constructor; [|constructor].
      apply clause_highlight_score in E as [-> _].
      apply keyword_risk_score_range.
Qed.

Lemma py_iter_truthy (v : JSONValue) (items : list JSONValue) :
  truthy v = true -> py_iter v = Ok items -> items <> [].
Proof.
  destruct v as [| | | |s|l|d]; try discriminate; simpl.
  - destruct s; [discriminate|]. intros _ H; injection H as <-. discriminate.
  - destruct l; [discriminate|]. intros _ H; injection H as <-. discriminate.
  - destruct d; [discriminate|]. intros _ H; injection H as <-. discriminate.
Qed.

Lemma highlights_of_scores (text : string) (parsed : JSONValue)
      (hs : list ClauseHighlight) :
  highlights_of text parsed = Ok hs ->
  hs <> [] /\ Forall (fun s => 0 <= s <= 100) (map score hs).
Proof.
  unfold highlights_of. intros H.
  destruct (truthy (clauses_test parsed)) eqn:T.
  - destruct (py_iter (clauses_test parsed)) as [cs|e] eqn:I; [|discriminate].
    cbn [bind] in H. pose proof (py_iter_truthy _ _ T I) as Hne.
    apply clause_loop_scores in H as [Hf Hl]; [|constructor].
    split.
    + destruct hs; [|discriminate]. destruct cs; [contradiction|discriminate].
    + apply Forall_map. exact Hf.
  - injection H as <-. split; [discriminate|].
    constructor; [|constructor]. cbn [score]. apply keyword_risk_score_range.
Qed.

Lemma str_in_single (a b : ascii) (w : string) (c : ascii) :
  str_in (String a (String b w)) (String c EmptyString) = false.
Proof. cbn [str_in prefix]. now destruct (ascii_dec a c). Qed.

Lemma presence_total_none (t : string) :
  (forall lw, In lw keywords -> str_in (snd lw) t = false) ->
  presence_total t = 0.
Proof.
  unfold presence_total. induction keywords as [|lw l IH]; intros H;
    [reflexivity|].
  cbn [map fold_right]. rewrite (H lw) by now left.
  rewrite IH; [reflexivity|]. intros; apply H; now right.
Qed.

Lemma keyword_risk_score_char (c : ascii) :
  _keyword_risk_score (String c EmptyString) = 0.
Proof.
  rewrite keyword_risk_score_presence, presence_total_none; [reflexivity|].
  intros lw Hin. cbn [lower]. vm_compute in Hin.
  repeat (destruct Hin as [<-|Hin]; [apply str_in_single|]).
  contradiction.
Qed.

(** ** The analysis *)

(** The highlight of one character of a [clauses] string. *)
Lemma clause_highlight_char (c : ascii) :
  clause_highlight (JString (String c EmptyString)) =
  Ok {| title := JNull; text := String c EmptyString;
        score := _keyword_risk_score (String c EmptyString);
        bucket := _map_score_to_bucket
                    (_keyword_risk_score (String c EmptyString)) |}.
Proof. reflexivity. Qed.

Lemma clause_loop_chars (l : list ascii) (acc : list ClauseHighlight) :
  clause_loop (map (fun c => JString (String c EmptyString)) l) acc =
  Ok (acc ++
      map (fun c =>
             {| title := JNull; text := String c EmptyString;
                score := _keyword_risk_score (String c EmptyString);
                bucket := _map_score_to_bucket
                            (_keyword_risk_score (String c EmptyString)) |})
          l)%list.
Proof.
  revert acc; induction l as [|c l IH]; intros acc.
  - simpl. now rewrite app_nil_r.
  - cbn [map clause_loop]. rewrite clause_highlight_char. cbn [bind].
    rewrite IH, <- app_assoc. reflexivity.
Qed.

Lemma str_take_split (n : nat) (s : string) :
  exists rest, s = (str_take n s ++ rest)%string.
Proof.
  unfold str_take. revert n; induction s as [|c s IH]; intros n.
  - exists EmptyString. now destruct n.
  - destruct n as [|n]; cbn [substring].
    + now exists (String c s).
    + destruct (IH n) as [rest E]. exists rest. cbn [append]. now f_equal.
Qed.

Lemma str_take_length (n : nat) (s : string) :
  length (str_take n s) = Nat.min n (length s).
Proof.
  unfold str_take. revert n; induction s as [|c s IH]; intros n.
  - now destruct n.
  - destruct n as [|n]; cbn [substring length Nat.min]; [reflexivity|].
    now rewrite IH.
Qed.


Section AnalysisFacts.

Variable loads : string -> option JSONValue.
Variable extract_contract_fields :
  string -> list string -> string -> outcome string.

Lemma analyze_contract_steps (text : string) (sp : option (list string))
      (model raw : string) (hs : list ClauseHighlight) (avg : Z) :
  extract_contract_fields text
    (match sp with Some l => l | None => [] end) model = Ok raw ->
  highlights_of text (parsed_of loads raw) = Ok hs ->
  avg_score_of (map score hs) = Ok avg ->
  analyze_contract loads extract_contract_fields text sp model =
  Ok {| assistant_content := raw;
        parsed := parsed_of loads raw;
        clause_highlights := hs;
        composite_risk_score := avg;
        composite_risk_bucket := _map_score_to_bucket avg |}.
Proof.
  intros He Hh Ha. unfold analyze_contract.
  rewrite He. cbn [bind]. rewrite Hh. cbn [bind]. rewrite Ha. reflexivity.
Qed.

(** C9: whenever the clauses of an analysis are scored, the analysis
    returns, there is at least one clause, the composite score is the
    floor of the arithmetic mean of the clause scores and the composite
    bucket is the bucket of the composite score.  The mean goes through a
    binary64 quotient, exact enough for up to 2^45 clauses.  Scores 30
    and 60 average to 45, which is Medium. *)
Theorem composite_score_floor_mean (text : string)
        (sp : option (list string)) (model raw : string)
        (hs : list ClauseHighlight) :
  extract_contract_fields text
    (match sp with Some l => l | None => [] end) model = Ok raw ->
  highlights_of text (parsed_of loads raw) = Ok hs ->
  Z.of_nat (List.length hs) <= 2 ^ 45 ->
  hs <> [] /\
  analyze_contract loads extract_contract_fields text sp model =
    Ok {| assistant_content := raw;
          parsed := parsed_of loads raw;
          clause_highlights := hs;
          composite_risk_score :=
            fold_left Z.add (map score hs) 0 / Z.of_nat (List.length hs);
          composite_risk_bucket :=
            _map_score_to_bucket
              (fold_left Z.add (map score hs) 0 /
               Z.of_nat (List.length hs)) |} /\
  avg_score_of [30; 60] = Ok 45 /\
  _map_score_to_bucket 45 = "Medium".
Proof.
  intros He Hh Hlen.
  destruct (highlights_of_scores _ _ _ Hh) as [Hne Hr].
  split; [exact Hne|]. split; [|split; reflexivity].
  apply analyze_contract_steps; [assumption..|].
  rewrite avg_score_of_floor, length_map; [reflexivity| |assumption|].
  - destruct hs; [contradiction|discriminate].
  - now rewrite length_map.
Qed.

(** C6: when the recovered mapping has no clauses key, or an empty
    clauses list (or another value that counts as false, such as null),
    or is the wrapper around the raw text, the analysis
    returns one clause: no title, the first 1000 characters of the
    contract text as its body, and the score of the whole contract text,
    which is then the composite score too.  The body is the prefix of the
    contract text of 1000 characters, or of all of them when there are
    fewer. *)
Theorem fallback_single_clause (text : string) (sp : option (list string))
        (model raw : string) :
  extract_contract_fields text
    (match sp with Some l => l | None => [] end) model = Ok raw ->
  (exists d, parsed_of loads raw = JObject d /\
             (dict_get "clauses" d = None \/
              dict_get "clauses" d = Some (JArray []) \/
              exists v, dict_get "clauses" d = Some v /\ truthy v = false)) \/
  parsed_of loads raw = JObject [("raw", JString raw)] ->
  exists r rest,
    analyze_contract loads extract_contract_fields text sp model = Ok r /\
    clause_highlights r =
      [ {| title := JNull;
           text := str_take 1000 text;
           score := _keyword_risk_score text;
           bucket := _map_score_to_bucket (_keyword_risk_score text) |} ] /\
    composite_risk_score r = _keyword_risk_score text /\
    text = (str_take 1000 text ++ rest)%string /\
    length (str_take 1000 text) = Nat.min 1000 (length text).
Proof.
  intros He Hp.
  assert (Hh : highlights_of text (parsed_of loads raw) =
               Ok [ {| title := JNull;
                       text := str_take 1000 text;
                       score := _keyword_risk_score text;
                       bucket := _map_score_to_bucket
                                   (_keyword_risk_score text) |} ]).
  { unfold highlights_of.
    destruct Hp as [[d [-> [Hd|[Hd|[v [Hd Hv]]]]]]| ->]; cbn [clauses_test];
      [rewrite Hd..|]; try reflexivity.
    now rewrite Hv. }
  assert (Ha : avg_score_of [_keyword_risk_score text] =
               Ok (_keyword_risk_score text)).
  { rewrite avg_score_of_floor.
    - cbn [fold_left List.length]. f_equal. apply Z.div_1_r.
    - discriminate.
    - constructor; [|constructor]. apply keyword_risk_score_range.
    - cbn. lia. }
  destruct (str_take_split 1000 text) as [rest Hrest].
  eexists _, rest. split.
  - exact (analyze_contract_steps text sp model raw _ _ He Hh Ha).
  - split; [reflexivity|]. split; [reflexivity|].
    split; [exact Hrest|apply str_take_length].
Qed.

(** C10: when the value under clauses is a non-empty string, the analysis
    returns one highlight for each of its characters, in order: no title,
    the character as the body, and the score and bucket of that
    one-character text. *)
Theorem clauses_string_per_character (text : string)
        (sp : option (list string)) (model raw : string)
        (d : list (string * JSONValue)) (s : string) :
  extract_contract_fields text
    (match sp with Some l => l | None => [] end) model = Ok raw ->
  parsed_of loads raw = JObject d ->
  dict_get "clauses" d = Some (JString s) ->
  s <> EmptyString ->
  exists r,
    analyze_contract loads extract_contract_fields text sp model = Ok r /\
    clause_highlights r =
      map (fun c =>
             {| title := JNull;
                text := String c EmptyString;
                score := _keyword_risk_score (String c EmptyString);
                bucket := _map_score_to_bucket
                            (_keyword_risk_score (String c EmptyString)) |})
          (list_ascii_of_string s).
Proof.
  intros He Hp Hd Hs.
  set (hs := map (fun c =>
               {| title := JNull;
                  text := String c EmptyString;
                  score := _keyword_risk_score (String c EmptyString);
                  bucket := _map_score_to_bucket
                              (_keyword_risk_score (String c EmptyString)) |})
            (list_ascii_of_string s)).
  assert (Hh : highlights_of text (parsed_of loads raw) = Ok hs).
  { unfold highlights_of. rewrite Hp. cbn [clauses_test]. rewrite Hd.
    destruct s as [|c s]; [contradiction|].
    cbn [truthy py_iter bind]. now rewrite clause_loop_chars. }
  assert (Ha : avg_score_of (map score hs) = Ok 0).
  { apply avg_score_of_zero. unfold hs. apply Forall_map, Forall_map.
    apply Forall_forall. intros c _. cbn [score].
    apply keyword_risk_score_char. }
  eexists. split.
  - exact (analyze_contract_steps text sp model raw _ _ He Hh Ha).
  - reflexivity.
Qed.

End AnalysisFacts.

(** ** The analysis on concrete replies *)

Lemma composite_score_floor_mean_witness :
  analyze_contract Json.loads
    (always_reply (Json.q "{'clauses': ['penalty', 'penalty and indemnity']}"))
    "contract" None "gpt-4o-mini" =
  Ok {| assistant_content :=
          Json.q "{'clauses': ['penalty', 'penalty and indemnity']}";
        parsed :=
          JObject [("clauses", JArray [JString "penalty";
                                       JString "penalty and indemnity"])];
        clause_highlights :=
          [ {| title := JNull; text := "penalty"; score := 30;
               bucket := "Medium" |};
            {| title := JNull; text := "penalty and indemnity"; score := 60;
               bucket := "High" |} ];
        composite_risk_score := 45;
        composite_risk_bucket := "Medium" |}.
Proof.
  destruct (composite_score_floor_mean Json.loads
              (always_reply
                 (Json.q "{'clauses': ['penalty', 'penalty and indemnity']}"))
              "contract" None "gpt-4o-mini"
              (Json.q "{'clauses': ['penalty', 'penalty and indemnity']}")
              [ {| title := JNull; text := "penalty"; score := 30;
                   bucket := "Medium" |};
                {| title := JNull; text := "penalty and indemnity";
                   score := 60; bucket := "High" |} ])
    as [_ [H _]].
  - reflexivity.
  - vm_compute; reflexivity.
  - cbn [List.length]. lia.
  - exact H.
Defined.

Lemma fallback_single_clause_witness :
  exists r,
    analyze_contract Json.loads (always_reply "sorry, no valid data")
      (string_of_list_ascii (repeat "a"%char 1000) ++
       " confidential, with indemnity")
      None "gpt-4o-mini" = Ok r /\
    clause_highlights r =
      [ {| title := JNull;
           text := string_of_list_ascii (repeat "a"%char 1000);
           score := 35;
           bucket := "Medium" |} ] /\
    composite_risk_score r = 35 /\
    _keyword_risk_score (string_of_list_ascii (repeat "a"%char 1000)) = 0.
Proof.
  destruct (fallback_single_clause Json.loads
              (always_reply "sorry, no valid data")
              (string_of_list_ascii (repeat "a"%char 1000) ++
               " confidential, with indemnity")
              None "gpt-4o-mini" "sorry, no valid data")
    as [r [rest [Hr [Hh [Hc _]]]]].
  - reflexivity.
  - right. vm_compute; reflexivity.
  - exists r. split; [exact Hr|]. rewrite Hh, Hc.
    split; [|split]; vm_compute; reflexivity.
Defined.

Lemma clauses_string_per_character_witness :
  exists r,
    analyze_contract Json.loads (always_reply (Json.q "{'clauses': 'nda'}"))
      "contract" None "gpt-4o-mini" = Ok r /\
    clause_highlights r =
      map (fun c =>
             {| title := JNull;
                text := String c EmptyString;
                score := _keyword_risk_score (String c EmptyString);
                bucket := _map_score_to_bucket
                            (_keyword_risk_score (String c EmptyString)) |})
          (list_ascii_of_string "nda").
Proof.
  apply (clauses_string_per_character Json.loads
           (always_reply (Json.q "{'clauses': 'nda'}"))
           "contract" None "gpt-4o-mini" (Json.q "{'clauses': 'nda'}")
           [("clauses", JString "nda")] "nda").
  - reflexivity.
  - vm_compute; reflexivity.
  - reflexivity.
  - discriminate.
Defined.

(** C3: a clause entry that is a mapping without a text key, or with a
    null text, makes the analysis raise; the body is not defaulted to the
    empty string. *)
Theorem clause_without_text_raises :
  analyze_contract Json.loads
    (always_reply (Json.q "{'clauses': [{'title': 'Term'}]}"))
    "Either party may terminate without cause." None "gpt-4o-mini" =
    Raise AttributeError /\
  analyze_contract Json.loads
    (always_reply (Json.q "{'clauses': [{'title': 'Term', 'text': null}]}"))
    "Either party may terminate without cause." None "gpt-4o-mini" =
    Raise AttributeError /\
  clause_highlight (JObject [("title", JString "Term")]) = Raise AttributeError /\
  clause_highlight (JString "plain") =
    Ok {| title := JNull; text := "plain"; score := 0; bucket := "Low" |} /\
  clause_highlight (JInt 7) =
    Ok {| title := JNull; text := EmptyString; score := 0; bucket := "Low" |}.
Proof. repeat split; vm_compute; reflexivity. Qed.

(** The two end-to-end runs of the specification. *)
Example analyze_contract_fenced_reply :
  analyze_contract Json.loads
    (always_reply
       ("Here you go:" ++ String LF
          (fenced (Json.q
             "{'clauses':[{'title':'Term','text':'Either party may terminate without cause.'}]}"))))
    "contract text" None "gpt-4o-mini" =
  Ok {| assistant_content :=
          "Here you go:" ++ String LF
            (fenced (Json.q
               "{'clauses':[{'title':'Term','text':'Either party may terminate without cause.'}]}"));
        parsed :=
          JObject [("clauses",
                    JArray [JObject
                              [("title", JString "Term");
                               ("text", JString
                                  "Either party may terminate without cause.")]])];
        clause_highlights :=
          [ {| title := JString "Term";
               text := "Either party may terminate without cause.";
               score := 30; bucket := "Medium" |} ];
        composite_risk_score := 30;
        composite_risk_bucket := "Medium" |}.
Proof. vm_compute. reflexivity. Qed.

Example analyze_contract_no_data_reply :
  analyze_contract Json.loads (always_reply "sorry, no valid data")
    "This agreement includes a confidentiality and indemnity obligation."
    None "gpt-4o-mini" =
  Ok {| assistant_content := "sorry, no valid data";
        parsed := JObject [("raw", JString "sorry, no valid data")];
        clause_highlights :=
          [ {| title := JNull;
               text := "This agreement includes a confidentiality and indemnity obligation.";
               score := 35; bucket := "Medium" |} ];
        composite_risk_score := 35;
        composite_risk_bucket := "Medium" |}.
Proof. vm_compute. reflexivity. Qed.

(** Fence stripping on sample texts. *)
Example strip_fences_samples :
  strip_fences ("```" ++ String LF "abc```") = "abc" /\
  strip_fences ("```JSON" ++ String LF ("{}" ++ String LF "```")) =
    "{}" ++ String LF EmptyString /\
  strip_fences ("```json{}" ++ String LF "```") =
    "json{}" ++ String LF EmptyString /\
  strip_fences ("````json" ++ String LF "x") = "`x" /\
  strip_fences "a``````b" = "ab".
Proof. vm_compute. repeat split. Qed.

(** The reader on sample texts. *)
Example json_loads_samples :
  Json.loads (Json.q "{'a': [1, -2, true, null], 'b': {'c': 'x\ny'}}") =
    Some (JObject [("a", JArray [JInt 1; JInt (-2); JBool true; JNull]);
                   ("b", JObject [("c", JString ("x" ++ String LF "y"))])]) /\
  Json.loads (Json.q "{'a':1,'b':2,'a':3}") =
    Some (JObject [("a", JInt 3); ("b", JInt 2)]) /\
  Json.loads " [ ] " = Some (JArray []) /\
  Json.loads "[[[[1]]],[],{}]" =
    Some (JArray [JArray [JArray [JArray [JInt 1]]]; JArray []; JObject []]) /\
  Json.loads (Json.q "{'a':{'b':{'c':{}}}}") =
    Some (JObject [("a", JObject [("b", JObject [("c", JObject [])])])]) /\
  Json.loads (Json.q "'\u00e9\u0041'") =
    Some (JString (String "233" (String "A" EmptyString))) /\
  Json.loads "0.1" = Some (JFloat (S754_finite false 7205759403792794 (-56))) /\
  Json.loads "12E+2" = Some (JFloat (S754_finite false 5277655813324800 (-42))) /\
  Json.loads "-0.0" = Some (JFloat (S754_zero true)) /\
  Json.loads "1e400" = Some (JFloat (S754_infinity false)) /\
  Json.loads "[1" = None /\ Json.loads "01" = None /\
  Json.loads "[1,]" = None /\ Json.loads "1." = None /\
  Json.loads "{'a': 1}" = None.
Proof. vm_compute. repeat split. Qed.

(** The quotient of line 110 against the Standard Library's division. *)
Example true_div_samples :
  true_div 1 3 = Ok (S754_finite false 6004799503160661 (-54)) /\
  true_div 90 2 = Ok (S754_finite false 6333186975989760 (-47)) /\
  avg_score_of [100; 100; 99] = Ok 99 /\
  avg_score_of [9007199254740993] = Ok 9007199254740992.
Proof. vm_compute. repeat split. Qed.

(** * Further properties *)

(** ** More on the clause score *)

Lemma presence_total_mono (t1 t2 : string) :
  (forall lw, In lw keywords ->
     str_in (snd lw) t1 = true -> str_in (snd lw) t2 = true) ->
  presence_total t1 <= presence_total t2.
Proof.
  unfold presence_total. induction keywords as [|lw l IH]; intros H;
    cbn [map fold_right]; [lia|].
  assert (IH' := IH (fun x Hx => H x (or_intror Hx))).
  pose proof (tier_weight_pos (fst lw)).
  pose proof (H lw (or_introl eq_refl)) as Hlw.
  destruct (str_in (snd lw) t1); [rewrite (Hlw eq_refl)|];
    destruct (str_in (snd lw) t2); lia.
Qed.

Lemma presence_total_divide (t : string) : (5 | presence_total t).
Proof.
  unfold presence_total. induction keywords as [|lw l IH];
    cbn [map fold_right]; [apply Z.divide_0_r|].
  apply Z.divide_add_r; [|exact IH].
  destruct (str_in (snd lw) t); [|apply Z.divide_0_r].
  unfold tier_weight.
  destruct (fst lw =? "high")%string; [now exists 6|].
  destruct (fst lw =? "medium")%string; [now exists 3|now exists 1].
Qed.

Lemma presence_total_zero (t : string) :
  presence_total t = 0 ->
  forall lw, In lw keywords -> str_in (snd lw) t = false.
Proof.
  unfold presence_total. induction keywords as [|lw l IH];
    cbn [map fold_right]; intros H x Hx; [contradiction|].
  pose proof (tier_weight_pos (fst lw)).
  pose proof (presence_total_nonneg t) as Hn. unfold presence_total in Hn.
  assert (Hl : 0 <= fold_right Z.add 0
                      (map (fun lw0 : string * string =>
                              if str_in (snd lw0) t
                              then tier_weight (fst lw0) else 0) l)).
  { clear. induction l as [|y l IHl]; cbn [map fold_right]; [lia|].
    pose proof (tier_weight_pos (fst y)).
    destruct (str_in (snd y) t); lia. }
  destruct Hx as [<-|Hx].
  - destruct (str_in (snd lw) t); [lia|reflexivity].
  - apply IH; [|exact Hx]. destruct (str_in (snd lw) t); lia.
Qed.

Lemma str_in_app_r (w t u : string) :
  str_in w u = true -> str_in w (t ++ u) = true.
Proof.
  intros H. induction t as [|c t IH]; [exact H|].
  cbn [append str_in]. rewrite IH. apply orb_true_r.
Qed.

Lemma lower_char_idem (c : ascii) : lower_char (lower_char c) = lower_char c.
Proof. destruct c as [[] [] [] [] [] [] [] []]; reflexivity. Qed.

Lemma lower_idem (s : string) : lower (lower s) = lower s.
Proof.
  induction s as [|c s IH]; [reflexivity|].
  cbn [lower]. now rewrite lower_char_idem, IH.
Qed.

(** X1: the score of any text lies between 0 and 100 and is a multiple
    of 5. *)
Theorem keyword_risk_score_bounds (text : string) :
  0 <= _keyword_risk_score text <= 100 /\ (5 | _keyword_risk_score text).
Proof.
  split; [apply keyword_risk_score_range|].
  rewrite keyword_risk_score_presence.
  destruct (Z.min_spec 100 (presence_total (lower text))) as [[_ ->]|[_ ->]];
    [now exists 20|apply presence_total_divide].
Qed.

(** X2: the score is 0 exactly when no keyword of the table occurs in
    the lower-cased text. *)
Theorem keyword_risk_score_zero_iff (text : string) :
  _keyword_risk_score text = 0 <->
  forall level words w,
    In (level, words) RISK_KEYWORDS -> In w words ->
    str_in w (lower text) = false.
Proof.
  rewrite keyword_risk_score_presence. split.
  - intros H level words w Hl Hw.
    assert (H0 : presence_total (lower text) = 0)
      by (pose proof (presence_total_nonneg (lower text)); lia).
    apply (presence_total_zero _ H0 (level, w)).
    unfold keywords. apply in_flat_map. exists (level, words).
    split; [exact Hl|]. cbn [fst snd]. now apply in_map.
  - intros H. rewrite presence_total_none; [reflexivity|].
    intros [level w] Hin. unfold keywords in Hin.
    apply in_flat_map in Hin as [[level' words] [Hl Hw]].
    cbn [fst snd] in Hw. apply in_map_iff in Hw as [w' [E Hw]].
    injection E as <- <-. cbn [snd]. now apply (H level' words).
Qed.


(** X3: text added before or after never lowers the score. *)
Theorem keyword_risk_score_monotone (t u : string) :
  _keyword_risk_score t <= _keyword_risk_score (t ++ u) /\
  _keyword_risk_score u <= _keyword_risk_score (t ++ u).
Proof.
  rewrite !keyword_risk_score_presence, lower_app. split.
  - apply Z.min_le_compat_l, presence_total_mono.
    intros lw _ H. now apply str_in_app.
  - apply Z.min_le_compat_l, presence_total_mono.
    intros lw _ H. now apply str_in_app_r.
Qed.

(** X4: the score does not depend on letter case: two texts with the same
    lower-casing score alike, and a text scores as its lower-casing. *)
Theorem keyword_risk_score_case (t t' : string) :
  lower t = lower t' ->
  _keyword_risk_score t = _keyword_risk_score t' /\
  _keyword_risk_score (lower t) = _keyword_risk_score t.
Proof.
  intros H. rewrite !keyword_risk_score_presence, lower_idem, H. now split.
Qed.

Lemma keyword_risk_score_case_witness :
  _keyword_risk_score "INDEMNITY and Penalty" =
    _keyword_risk_score "indemnity AND penalty" /\
  _keyword_risk_score (lower "INDEMNITY and Penalty") =
    _keyword_risk_score "INDEMNITY and Penalty".
Proof.
  apply (keyword_risk_score_case "INDEMNITY and Penalty"
           "indemnity AND penalty").
  vm_compute; reflexivity.
Defined.

(** ** More on the buckets *)

(** X5: a bucket is one of Low, Medium and High, and a higher score never
    gets a lower bucket. *)
Theorem map_score_to_bucket_monotone (s1 s2 : Z) :
  s1 <= s2 ->
  bucket_rank (_map_score_to_bucket s1) <= bucket_rank (_map_score_to_bucket s2)
  /\ (_map_score_to_bucket s1 = "Low" \/ _map_score_to_bucket s1 = "Medium" \/
      _map_score_to_bucket s1 = "High").
Proof.
  intros H. unfold _map_score_to_bucket. rewrite !Z.geb_leb.
  destruct (Z.leb_spec 60 s1); destruct (Z.leb_spec 60 s2);
    destruct (Z.leb_spec 30 s1); destruct (Z.leb_spec 30 s2);
    try lia; (split; [vm_compute; discriminate|auto]).
Qed.

Lemma map_score_to_bucket_monotone_witness :
  bucket_rank (_map_score_to_bucket 29) <= bucket_rank (_map_score_to_bucket 30)
  /\ (_map_score_to_bucket 29 = "Low" \/ _map_score_to_bucket 29 = "Medium" \/
      _map_score_to_bucket 29 = "High").
Proof. apply (map_score_to_bucket_monotone 29 30). lia. Defined.

(** ** More on the analysis *)

Lemma clause_highlight_scorable (c : JSONValue) :
  scorable c = true ->
  clause_highlight c =
  Ok {| title := clause_title c;
        text := clause_body c;
        score := _keyword_risk_score (clause_body c);
        bucket := _map_score_to_bucket (_keyword_risk_score (clause_body c)) |}.
Proof.
  unfold scorable, clause_highlight, clause_title, clause_body.
  destruct c as [| | | | |l|d]; try reflexivity.
  destruct (dict_get "text" d) as [[]|]; try discriminate. reflexivity.
Qed.

Lemma clause_highlight_unscorable (c : JSONValue) :
  scorable c = false -> clause_highlight c = Raise AttributeError.
Proof.
  unfold scorable, clause_highlight.
  destruct c as [| | | | |l|d]; try discriminate.
  destruct (dict_get "text" d) as [[]|]; try discriminate; reflexivity.
Qed.

Lemma clause_loop_scorable (cs : list JSONValue)
      (acc : list ClauseHighlight) :
  forallb scorable cs = true ->
  clause_loop cs acc =
  Ok (acc ++
      map (fun c =>
             {| title := clause_title c;
                text := clause_body c;
                score := _keyword_risk_score (clause_body c);
                bucket := _map_score_to_bucket
                            (_keyword_risk_score (clause_body c)) |}) cs)%list.
Proof.
  revert acc; induction cs as [|c cs IH]; intros acc H.
  - simpl. now rewrite app_nil_r.
  - cbn [forallb] in H. apply andb_true_iff in H as [Hc Hcs].
    cbn [clause_loop map]. rewrite (clause_highlight_scorable c Hc).
    cbn [bind]. rewrite (IH _ Hcs), <- app_assoc. reflexivity.
Qed.

Lemma clause_loop_unscorable (cs : list JSONValue)
      (acc : list ClauseHighlight) :
  forallb scorable cs = false ->
  clause_loop cs acc = Raise AttributeError.
Proof.
  revert acc; induction cs as [|c cs IH]; intros acc H; [discriminate|].
  cbn [forallb] in H. cbn [clause_loop].
  destruct (scorable c) eqn:Hc.
  - rewrite (clause_highlight_scorable c Hc). cbn [bind]. now apply IH.
  - now rewrite (clause_highlight_unscorable c Hc).
Qed.

Lemma clause_loop_consistent (clauses : list JSONValue)
      (acc hs : list ClauseHighlight) :
  clause_loop clauses acc = Ok hs ->
  Forall (fun h => bucket h = _map_score_to_bucket (score h)) acc ->
  Forall (fun h => bucket h = _map_score_to_bucket (score h)) hs.
Proof.
  revert acc; induction clauses as [|c clauses IH]; intros acc H Hacc.
  - now injection H as <-.
  - cbn [clause_loop] in H.
    destruct (clause_highlight c) as [h|e] eqn:E; [|discriminate].
    cbn [bind] in H. apply IH in H; [exact H|].
    apply Forall_app. split; [assumption|]. constructor; [|constructor].
    now apply clause_highlight_score in E as [_ E].
Qed.

Lemma highlights_of_consistent (contract : string) (parsed : JSONValue)
      (hs : list ClauseHighlight) :
  highlights_of contract parsed = Ok hs ->
  Forall (fun h => bucket h = _map_score_to_bucket (score h)) hs.
Proof.
  unfold highlights_of. intros H.
  destruct (truthy (clauses_test parsed)).
  - destruct (py_iter (clauses_test parsed)) as [cs|e]; [|discriminate].
    cbn [bind] in H. apply clause_loop_consistent in H; [exact H|constructor].
  - injection H as <-. constructor; [reflexivity|constructor].
Qed.

Lemma mean_between (scores : list Z) (lo hi : Z) :
  scores <> [] ->
  Forall (fun s => lo <= s <= hi) scores ->
  lo <= fold_left Z.add scores 0 / Z.of_nat (List.length scores) <= hi.
Proof.
  intros Hne H.
  assert (Hsum : lo * Z.of_nat (List.length scores) <=
                 fold_left Z.add scores 0 <=
                 hi * Z.of_nat (List.length scores)).
  { clear Hne. induction H as [|x l Hx Hl IH]; [simpl; lia|].
    cbn [fold_left List.length]. rewrite fold_left_add_acc. lia. }
  assert (0 < Z.of_nat (List.length scores))
    by (destruct scores; [contradiction|cbn [List.length]; lia]).
  split.
  - apply Z.div_le_lower_bound; lia.
  - apply Z.div_le_upper_bound; lia.
Qed.



Section MoreAnalysisFacts.

Variable loads : string -> option JSONValue.
Variable extract_contract_fields :
  string -> list string -> string -> outcome string.

Lemma analyze_contract_inv (contract : string) (sp : option (list string))
      (model : string) (r : AnalysisResult) :
  analyze_contract loads extract_contract_fields contract sp model = Ok r ->
  extract_contract_fields contract
    (match sp with Some l => l | None => [] end) model =
    Ok (assistant_content r) /\
  parsed r = parsed_of loads (assistant_content r) /\
  highlights_of contract (parsed r) = Ok (clause_highlights r) /\
  avg_score_of (map score (clause_highlights r)) =
    Ok (composite_risk_score r) /\
  composite_risk_bucket r = _map_score_to_bucket (composite_risk_score r).
Proof.
  unfold analyze_contract. intros H.
  destruct (extract_contract_fields contract _ model) as [raw|e];
    [|discriminate].
  cbn [bind] in H.
  destruct (highlights_of contract (parsed_of loads raw)) as [hs|e] eqn:Hh;
    [|discriminate].
  cbn [bind] in H.
  destruct (avg_score_of (map score hs)) as [avg|e] eqn:Ha; [|discriminate].
  cbn [bind] in H. injection H as <-. cbn. auto.
Qed.

(** X7: what every returned analysis satisfies, for up to 2^45 clauses:
    it carries the collaborator's reply and the value recovered from it;
    it has at least one highlight; every highlight has a score from 0 to
    100 and the bucket of its score; the composite bucket is the bucket of
    the composite score; and the composite score lies within any bounds
    that hold for all the clause scores. *)
Theorem analyze_contract_result_invariants (contract : string)
        (sp : option (list string)) (model : string) (r : AnalysisResult) :
  analyze_contract loads extract_contract_fields contract sp model = Ok r ->
  Z.of_nat (List.length (clause_highlights r)) <= 2 ^ 45 ->
  extract_contract_fields contract
    (match sp with Some l => l | None => [] end) model =
    Ok (assistant_content r) /\
  parsed r = parsed_of loads (assistant_content r) /\
  clause_highlights r <> [] /\
  Forall (fun h => 0 <= score h <= 100 /\
                   bucket h = _map_score_to_bucket (score h))
         (clause_highlights r) /\
  composite_risk_bucket r = _map_score_to_bucket (composite_risk_score r) /\
  (forall lo hi,
      Forall (fun h => lo <= score h <= hi) (clause_highlights r) ->
      lo <= composite_risk_score r <= hi).
Proof.
  intros H Hlen.
  destruct (analyze_contract_inv _ _ _ _ H) as [He [Hp [Hh [Ha Hb]]]].
  destruct (highlights_of_scores _ _ _ Hh) as [Hne Hr].
  pose proof (highlights_of_consistent _ _ _ Hh) as Hc.
  assert (Hhs : map score (clause_highlights r) <> [])
    by (destruct (clause_highlights r); [contradiction|discriminate]).
  rewrite avg_score_of_floor in Ha;
    [|exact Hhs|exact Hr|now rewrite length_map].
  injection Ha as Ha. rewrite length_map in Ha.
  split; [exact He|]. split; [exact Hp|]. split; [exact Hne|].
  split; [|split; [exact Hb|]].
  - apply Forall_forall. intros h Hin. split.
    + rewrite Forall_forall in Hr. apply Hr. now apply in_map.
    + rewrite Forall_forall in Hc. now apply Hc.
  - intros lo hi Hb'. rewrite <- Ha, <- (length_map score).
    apply mean_between; [exact Hhs|now apply Forall_map].
Qed.

(** X8: when the value under clauses is a non-empty list of at most 2^45
    entries none of which is a mapping with a missing or non-string text,
    the analysis returns one highlight per entry, in order, with the
    entry's title, its body and the score of that body. *)
Theorem clauses_list_scorable (contract : string) (sp : option (list string))
        (model raw : string) (d : list (string * JSONValue))
        (cs : list JSONValue) :
  extract_contract_fields contract
    (match sp with Some l => l | None => [] end) model = Ok raw ->
  parsed_of loads raw = JObject d ->
  dict_get "clauses" d = Some (JArray cs) ->
  cs <> [] ->
  forallb scorable cs = true ->
  Z.of_nat (List.length cs) <= 2 ^ 45 ->
  exists r,
    analyze_contract loads extract_contract_fields contract sp model = Ok r /\
    map title (clause_highlights r) = map clause_title cs /\
    map text (clause_highlights r) = map clause_body cs /\
    map score (clause_highlights r) =
      map (fun c => _keyword_risk_score (clause_body c)) cs.
Proof.
  intros He Hp Hd Hne Hs Hlen.
  set (hs := map (fun c =>
             {| title := clause_title c;
                text := clause_body c;
                score := _keyword_risk_score (clause_body c);
                bucket := _map_score_to_bucket
                            (_keyword_risk_score (clause_body c)) |}) cs).
  assert (Hh : highlights_of contract (parsed_of loads raw) = Ok hs).
  { unfold highlights_of. rewrite Hp. cbn [clauses_test]. rewrite Hd.
    destruct cs as [|c cs]; [contradiction|].
    cbn [truthy py_iter bind]. now rewrite clause_loop_scorable. }
  destruct (highlights_of_scores _ _ _ Hh) as [Hhne Hr].
  assert (Ha : avg_score_of (map score hs) =
               Ok (fold_left Z.add (map score hs) 0 /
                   Z.of_nat (List.length (map score hs)))).
  { apply avg_score_of_floor; [|exact Hr|].
    - destruct hs; [contradiction|discriminate].
    - unfold hs. now rewrite !length_map. }
  eexists. split.
  - exact (analyze_contract_steps loads extract_contract_fields
             contract sp model raw _ _ He Hh Ha).
  - cbn [clause_highlights]. unfold hs. rewrite !map_map. cbn. auto.
Qed.

(** X9: when the value under clauses is a list with an entry, anywhere,
    that is a mapping with a missing or non-string text, the analysis
    raises AttributeError, whatever the other entries are. *)
Theorem clauses_list_unscorable (contract : string)
        (sp : option (list string)) (model raw : string)
        (d : list (string * JSONValue)) (cs : list JSONValue) :
  extract_contract_fields contract
    (match sp with Some l => l | None => [] end) model = Ok raw ->
  parsed_of loads raw = JObject d ->
  dict_get "clauses" d = Some (JArray cs) ->
  forallb scorable cs = false ->
  analyze_contract loads extract_contract_fields contract sp model =
  Raise AttributeError.
Proof.
  intros He Hp Hd Hs. unfold analyze_contract. rewrite He. cbn [bind].
  unfold highlights_of. rewrite Hp. cbn [clauses_test]. rewrite Hd.
  destruct cs as [|c cs]; [discriminate|].
  cbn [truthy py_iter bind]. now rewrite clause_loop_unscorable.
Qed.

(** X10: when the value under clauses is true or a number other than
    zero, the analysis raises TypeError: the value counts as true and
    cannot be iterated. *)
Theorem clauses_scalar_raises (contract : string) (sp : option (list string))
        (model raw : string) (d : list (string * JSONValue)) (v : JSONValue) :
  extract_contract_fields contract
    (match sp with Some l => l | None => [] end) model = Ok raw ->
  parsed_of loads raw = JObject d ->
  dict_get "clauses" d = Some v ->
  v = JBool true \/
  (exists n, v = JInt n /\ n <> 0) \/
  (exists f, v = JFloat f /\ forall s, f <> S754_zero s) ->
  analyze_contract loads extract_contract_fields contract sp model =
  Raise TypeError.
Proof.
  intros He Hp Hd Hv. unfold analyze_contract. rewrite He. cbn [bind].
  unfold highlights_of. rewrite Hp. cbn [clauses_test]. rewrite Hd.
  destruct Hv as [->|[[n [-> Hn]]|[f [-> Hf]]]].
  - reflexivity.
  - cbn [truthy]. destruct (Z.eqb_spec n 0); [contradiction|reflexivity].
  - destruct f as [s| | |]; try reflexivity. now destruct (Hf s).
Qed.

Lemma clause_loop_strings (l : list string) (acc : list ClauseHighlight) :
  clause_loop (map JString l) acc =
  Ok (acc ++
      map (fun k =>
             {| title := JNull; text := k;
                score := _keyword_risk_score k;
                bucket := _map_score_to_bucket (_keyword_risk_score k) |})
          l)%list.
Proof.
  revert acc; induction l as [|k l IH]; intros acc.
  - simpl. now rewrite app_nil_r.
  - cbn [map clause_loop clause_highlight bind].
    rewrite IH, <- app_assoc. reflexivity.
Qed.

(** X11: when the value under clauses is a non-empty mapping of at most
    2^45 members, the analysis scores its keys, in order, and never looks
    at the values: one highlight per key, no title, the key as the body. *)
Theorem clauses_mapping_scores_keys (contract : string)
        (sp : option (list string)) (model raw : string)
        (d m : list (string * JSONValue)) :
  extract_contract_fields contract
    (match sp with Some l => l | None => [] end) model = Ok raw ->
  parsed_of loads raw = JObject d ->
  dict_get "clauses" d = Some (JObject m) ->
  m <> [] ->
  Z.of_nat (List.length m) <= 2 ^ 45 ->
  exists r,
    analyze_contract loads extract_contract_fields contract sp model = Ok r /\
    clause_highlights r =
      map (fun kv : string * JSONValue =>
             {| title := JNull; text := fst kv;
                score := _keyword_risk_score (fst kv);
                bucket := _map_score_to_bucket
                            (_keyword_risk_score (fst kv)) |}) m.
Proof.
  intros He Hp Hd Hne Hlen.
  set (hs := map (fun kv : string * JSONValue =>
             {| title := JNull; text := fst kv;
                score := _keyword_risk_score (fst kv);
                bucket := _map_score_to_bucket
                            (_keyword_risk_score (fst kv)) |}) m).
  assert (Hh : highlights_of contract (parsed_of loads raw) = Ok hs).
  { unfold highlights_of. rewrite Hp. cbn [clauses_test]. rewrite Hd.
    destruct m as [|kv m]; [contradiction|].
    cbn [truthy py_iter bind].
    rewrite <- (map_map fst JString), clause_loop_strings.
    unfold hs. now rewrite map_map. }
  destruct (highlights_of_scores _ _ _ Hh) as [Hhne Hr].
  assert (Ha : avg_score_of (map score hs) =
               Ok (fold_left Z.add (map score hs) 0 /
                   Z.of_nat (List.length (map score hs)))).
  { apply avg_score_of_floor; [|exact Hr|].
    - destruct hs; [contradiction|discriminate].
    - unfold hs. now rewrite !length_map. }
  eexists. split.
  - exact (analyze_contract_steps loads extract_contract_fields
             contract sp model raw _ _ He Hh Ha).
  - reflexivity.
Qed.

End MoreAnalysisFacts.

Lemma analyze_contract_result_invariants_witness :
  exists r,
    analyze_contract Json.loads
      (always_reply (Json.q "{'clauses': ['penalty', 'renewal']}"))
      "contract" None "gpt-4o-mini" = Ok r /\
    always_reply (Json.q "{'clauses': ['penalty', 'renewal']}")
      "contract" [] "gpt-4o-mini" = Ok (assistant_content r) /\
    parsed r = parsed_of Json.loads (assistant_content r) /\
    clause_highlights r <> [] /\
    Forall (fun h => 0 <= score h <= 100 /\
                     bucket h = _map_score_to_bucket (score h))
           (clause_highlights r) /\
    composite_risk_bucket r = _map_score_to_bucket (composite_risk_score r) /\
    (forall lo hi,
        Forall (fun h => lo <= score h <= hi) (clause_highlights r) ->
        lo <= composite_risk_score r <= hi).
Proof.
  eexists. split; [vm_compute; reflexivity|].
  apply (analyze_contract_result_invariants Json.loads
           (always_reply (Json.q "{'clauses': ['penalty', 'renewal']}"))
           "contract" None "gpt-4o-mini").
  - vm_compute; reflexivity.
  - cbn [clause_highlights List.length]. lia.
Defined.

Lemma clauses_list_scorable_witness :
  exists r,
    analyze_contract Json.loads
      (always_reply
         (Json.q "{'clauses': [{'title': 'Term', 'text': 'A penalty.'}, 'Renewal', 5]}"))
      "contract" None "gpt-4o-mini" = Ok r /\
    map title (clause_highlights r) =
      map clause_title
        [JObject [("title", JString "Term"); ("text", JString "A penalty.")];
         JString "Renewal"; JInt 5] /\
    map text (clause_highlights r) =
      map clause_body
        [JObject [("title", JString "Term"); ("text", JString "A penalty.")];
         JString "Renewal"; JInt 5] /\
    map score (clause_highlights r) =
      map (fun c => _keyword_risk_score (clause_body c))
        [JObject [("title", JString "Term"); ("text", JString "A penalty.")];
         JString "Renewal"; JInt 5].
Proof.
  apply (clauses_list_scorable Json.loads
           (always_reply
              (Json.q "{'clauses': [{'title': 'Term', 'text': 'A penalty.'}, 'Renewal', 5]}"))
           "contract" None "gpt-4o-mini"
           (Json.q "{'clauses': [{'title': 'Term', 'text': 'A penalty.'}, 'Renewal', 5]}")
           [("clauses",
             JArray [JObject [("title", JString "Term");
                              ("text", JString "A penalty.")];
                     JString "Renewal"; JInt 5])]).
  - reflexivity.
  - vm_compute; reflexivity.
  - reflexivity.
  - discriminate.
  - reflexivity.
  - cbn [List.length]. lia.
Defined.

Lemma clauses_list_unscorable_witness :
  analyze_contract Json.loads
    (always_reply (Json.q "{'clauses': ['fine', {'title': 'T'}, 'also fine']}"))
    "contract" None "gpt-4o-mini" = Raise AttributeError.
Proof.
  apply (clauses_list_unscorable Json.loads
           (always_reply
              (Json.q "{'clauses': ['fine', {'title': 'T'}, 'also fine']}"))
           "contract" None "gpt-4o-mini"
           (Json.q "{'clauses': ['fine', {'title': 'T'}, 'also fine']}")
           [("clauses", JArray [JString "fine";
                                JObject [("title", JString "T")];
                                JString "also fine"])]
           [JString "fine"; JObject [("title", JString "T")];
            JString "also fine"]).
  - reflexivity.
  - vm_compute; reflexivity.
  - reflexivity.
  - reflexivity.
Defined.

Lemma clauses_scalar_raises_witness :
  analyze_contract Json.loads (always_reply (Json.q "{'clauses': 5}"))
    "contract" None "gpt-4o-mini" = Raise TypeError.
Proof.
  apply (clauses_scalar_raises Json.loads
           (always_reply (Json.q "{'clauses': 5}"))
           "contract" None "gpt-4o-mini" (Json.q "{'clauses': 5}")
           [("clauses", JInt 5)] (JInt 5)).
  - reflexivity.
  - vm_compute; reflexivity.
  - reflexivity.
  - right. left. exists 5. split; [reflexivity|lia].
Defined.

Lemma clauses_mapping_scores_keys_witness :
  exists r,
    analyze_contract Json.loads
      (always_reply
         (Json.q "{'clauses': {'Term': 'penalty and indemnity', 'Fee': 'x'}}"))
      "contract" None "gpt-4o-mini" = Ok r /\
    clause_highlights r =
      map (fun kv : string * JSONValue =>
             {| title := JNull; text := fst kv;
                score := _keyword_risk_score (fst kv);
                bucket := _map_score_to_bucket
                            (_keyword_risk_score (fst kv)) |})
          [("Term", JString "penalty and indemnity"); ("Fee", JString "x")].
Proof.
  apply (clauses_mapping_scores_keys Json.loads
           (always_reply
              (Json.q "{'clauses': {'Term': 'penalty and indemnity', 'Fee': 'x'}}"))
           "contract" None "gpt-4o-mini"
           (Json.q "{'clauses': {'Term': 'penalty and indemnity', 'Fee': 'x'}}")
           [("clauses",
             JObject [("Term", JString "penalty and indemnity");
                      ("Fee", JString "x")])]).
  - reflexivity.
  - vm_compute; reflexivity.
  - reflexivity.
  - discriminate.
  - cbn [List.length]. lia.
Defined.

(** ** More on fence stripping *)

Lemma delete_matches_none (f : string -> nat) (s : string) :
  (forall c r, f (String c r) <> 0%nat -> prefix fence (String c r) = true) ->
  str_in fence s = false ->
  delete_matches f 0 s = s.
Proof.
  intros Hf. induction s as [|c s IH]; intros H; [reflexivity|].
  apply str_in_cons_false in H as [Hp Hs].
  cbn [delete_matches].
  destruct (f (String c s)) eqn:E.
  - now rewrite IH.
  - rewrite Hf in Hp; [discriminate|]. rewrite E. discriminate.
Qed.

Lemma strip_fences_id (s : string) :
  str_in fence s = false -> strip_fences s = s.
Proof.
  intros H. unfold strip_fences.
  rewrite (delete_matches_none fence_open_len s); [|
    intros c r Hn; unfold fence_open_len in Hn;
    destruct (prefix fence (String c r)); [reflexivity|now destruct Hn] |
    exact H].
  apply delete_matches_none; [|exact H].
  intros c r Hn. unfold fence_len in Hn.
  destruct (prefix fence (String c r)); [reflexivity|now destruct Hn].
Qed.

Lemma prefix_fence_inv (s : string) :
  prefix fence s = true ->
  exists r, s = String backtick (String backtick (String backtick r)).
Proof.
  unfold fence. destruct s as [|c1 [|c2 [|c3 r]]]; cbn [prefix];
    repeat match goal with
           | |- context [ascii_dec ?a ?b] => destruct (ascii_dec a b)
           end; try discriminate.
  subst. intros _. now exists r.
Qed.

Lemma fence_len_cases (s : string) :
  (exists r, s = String backtick (String backtick (String backtick r)) /\
             delete_matches fence_len 0 s = delete_matches fence_len 0 r) \/
  (prefix fence s = false /\
   match s with
   | EmptyString => True
   | String c s' =>
       delete_matches fence_len 0 s = String c (delete_matches fence_len 0 s')
   end).
Proof.
  destruct (prefix fence s) eqn:E.
  - left. destruct (prefix_fence_inv s E) as [r ->]. exists r.
    split; [reflexivity|]. cbn [delete_matches].
    unfold fence_len at 1. now rewrite E.
  - right. split; [reflexivity|]. destruct s as [|c s']; [exact I|].
    cbn [delete_matches]. unfold fence_len at 1. now rewrite E.
Qed.

Lemma prefix_tick_kept (s : string) :
  prefix (String backtick EmptyString) s = false ->
  prefix (String backtick EmptyString) (delete_matches fence_len 0 s) = false.
Proof.
  intros H. destruct (fence_len_cases s) as [[r [-> _]]|[_ Hs]].
  - cbn [prefix] in H. destruct (ascii_dec backtick backtick); [|contradiction].
    discriminate.
  - destruct s as [|c s']; [reflexivity|]. rewrite Hs.
    cbn [prefix] in *. destruct (ascii_dec backtick c); [|reflexivity].
    now rewrite prefix_empty in H.
Qed.

Lemma prefix_ticks_kept (s : string) :
  prefix (String backtick (String backtick EmptyString)) s = false ->
  prefix (String backtick (String backtick EmptyString))
         (delete_matches fence_len 0 s) = false.
Proof.
  intros H. destruct (fence_len_cases s) as [[r [-> _]]|[_ Hs]].
  - cbn [prefix] in H.
    destruct (ascii_dec backtick backtick); [|contradiction].
    discriminate.
  - destruct s as [|c s']; [reflexivity|]. rewrite Hs.
    cbn [prefix] in *. destruct (ascii_dec backtick c); [|reflexivity].
    now apply prefix_tick_kept.
Qed.

Lemma fence_len_no_fence (n : nat) (s : string) :
  (length s <= n)%nat ->
  str_in fence (delete_matches fence_len 0 s) = false.
Proof.
  revert s; induction n as [|n IH]; intros s L.
  - destruct s; [reflexivity|simpl in L; lia].
  - destruct (fence_len_cases s) as [[r [-> Hr]]|[Hp Hs]].
    + rewrite Hr. apply IH. cbn [length] in L. lia.
    + destruct s as [|c s']; [reflexivity|]. rewrite Hs.
      cbn [str_in]. apply orb_false_iff. split.
      * unfold fence in *. cbn [prefix] in *.
        destruct (ascii_dec "`"%char c); [|reflexivity].
        now apply prefix_ticks_kept.
      * apply IH. cbn [length] in L. lia.
Qed.

(** X12: what fence stripping returns holds no run of three backticks,
    and stripping it again changes nothing. *)
Theorem strip_fences_idempotent (s : string) :
  str_in fence (strip_fences s) = false /\
  strip_fences (strip_fences s) = strip_fences s.
Proof.
  assert (H : str_in fence (strip_fences s) = false)
    by (unfold strip_fences; now apply (fence_len_no_fence _ _ (le_n _))).
  split; [exact H|now apply strip_fences_id].
Qed.

(** ** More on recovery *)

Lemma substring_app_r (pre s : string) (a n : nat) :
  substring (length pre + a) n (pre ++ s) = substring a n s.
Proof. induction pre as [|c pre IH]; [reflexivity|exact IH]. Qed.

Lemma get_app_r (pre s : string) (i : nat) :
  get (length pre + i) (pre ++ s) = get i s.
Proof. induction pre as [|c pre IH]; [reflexivity|exact IH]. Qed.

Lemma find_seq_shift (Q : nat -> bool) (p n a : nat) :
  find (fun j => Q (j - p)%nat) (seq (p + a) n) =
  option_map (fun i => (p + i)%nat) (find Q (seq a n)).
Proof.
  revert a; induction n as [|n IH]; intros a; [reflexivity|].
  cbn [seq find]. replace (p + a - p)%nat with a by lia.
  destruct (Q a); [reflexivity|].
  replace (S (p + a)) with (p + S a)%nat by lia. apply IH.
Qed.

Lemma first_closure_app_l (pre s : string) :
  first_closure (pre ++ s) (length pre) =
  option_map (fun i => (length pre + i)%nat) (first_closure s 0).
Proof.
  unfold first_closure.
  rewrite string_length_app.
  replace (length pre + length s - length pre)%nat with (length s) by lia.
  rewrite Nat.sub_0_r.
  replace (seq (length pre) (length s))
    with (seq (length pre + 0) (length s)) by (f_equal; lia).
  rewrite <- (find_seq_shift
                (fun i => brace_balance (substring 0 (i + 1 - 0) s) =? 0)).
  apply find_ext_in. intros j Hj. apply in_seq in Hj.
  replace (j + 1 - length pre)%nat
    with (j - length pre + 1 - 0)%nat by lia.
  replace (length pre) with (length pre + 0)%nat at 1 by lia.
  now rewrite substring_app_r.
Qed.

Lemma candidate_at_app_l (pre s : string) :
  candidate_at (pre ++ s) (length pre) = candidate_at s 0.
Proof.
  unfold candidate_at. rewrite first_closure_app_l.
  destruct (first_closure s 0) as [i|]; [|reflexivity].
  cbn [option_map]. f_equal.
  replace (length pre + i + 1 - length pre)%nat with (i + 1 - 0)%nat by lia.
  replace (length pre) with (length pre + 0)%nat at 1 by lia.
  apply substring_app_r.
Qed.

Lemma start_idxs_app_head (pre s : string) :
  str_in (String lbrace EmptyString) pre = false ->
  get 0 s = Some lbrace ->
  exists rest, start_idxs (pre ++ s) = length pre :: rest.
Proof.
  intros Hpre H0. unfold start_idxs.
  rewrite string_length_app, seq_app, filter_app. cbn [Nat.add].
  assert (E : filter
                (fun i => match get i (pre ++ s) with
                          | Some c => (c =? lbrace)%char
                          | None => false
                          end) (seq 0 (length pre)) = []).
  { rewrite <- (start_idxs_none pre Hpre). unfold start_idxs.
    apply filter_ext_in. intros i Hi. apply in_seq in Hi.
    now rewrite get_app_lt by lia. }
  rewrite E. cbn [app].
  pose proof (get_some_lt _ _ _ H0) as L.
  assert (G : get (length pre) (pre ++ s) = Some lbrace)
    by (rewrite <- H0, <- (get_app_r pre s 0); f_equal; lia).
  destruct (length s) as [|n]; [lia|]. cbn [seq filter].
  rewrite G, Ascii.eqb_refl. eauto.
Qed.

Section MoreRecoveryFacts.

Variable loads : string -> option JSONValue.

Lemma extract_json_nonempty (s : string) :
  s <> EmptyString ->
  _extract_json_from_text loads s =
  match scan_starts loads (strip_fences s) (start_idxs (strip_fences s)) with
  | Some v => v
  | None => JNull
  end.
Proof. now destruct s. Qed.

(** X13: one object in prose.  When the text is no JSON text and holds no
    run of three backticks, nothing before the object holds an opening
    brace, the object starts with its brace, its brace depth is back to
    zero for the first time at its last character and it parses to a
    mapping, the text is recovered as that mapping, whatever follows the
    object. *)
Theorem parsed_of_embedded_object (pre body post : string)
        (d : list (string * JSONValue)) :
  loads (pre ++ body ++ post) = None ->
  str_in fence (pre ++ body ++ post) = false ->
  str_in (String lbrace EmptyString) pre = false ->
  get 0 body = Some lbrace ->
  candidate_at body 0 = Some body ->
  loads body = Some (JObject d) ->
  parsed_of loads (pre ++ body ++ post) = JObject d.
Proof.
  intros Hl Hf Hpre H0 Hc Hb. unfold parsed_of. rewrite Hl.
  assert (E : _extract_json_from_text loads (pre ++ body ++ post) = JObject d);
    [|now rewrite E].
  rewrite extract_json_nonempty
    by (destruct pre; [destruct body|]; discriminate).
  rewrite (strip_fences_id _ Hf).
  rewrite scan_starts_refines by (intros i; apply start_idxs_in).
  destruct (start_idxs_app_head pre (body ++ post) Hpre
              (get_app_l _ _ _ _ H0)) as [rest ->].
  cbn [leftmost_parse].
  rewrite candidate_at_app_l, (candidate_at_app body post 0 body Hc).
  now rewrite Hb.
Qed.

Lemma scan_from_sound (s : string) (start : nat) (v : JSONValue) :
  get start s = Some lbrace ->
  forall (n i : nat) (depth : Z),
    (start <= i)%nat ->
    depth = brace_balance (substring start (i - start) s) ->
    scan_from loads s start (seq i n) depth = Some v ->
    exists j, (start <= j)%nat /\
              get j s = Some rbrace /\
              brace_balance (substring start (j + 1 - start) s) = 0 /\
              loads (substring start (j + 1 - start) s) = Some v.
Proof.
  intros Hstart. induction n as [|n IH]; intros i depth Hle Hd H;
    [discriminate|].
  cbn [seq scan_from] in H.
  destruct (get i s) as [c|] eqn:G; [|discriminate].
  assert (Hbal : brace_balance (substring start (i + 1 - start) s) =
                 depth + brace_delta c).
  { replace (i + 1 - start)%nat with (S (i - start)) by lia.
    rewrite (balance_step s start (i - start) c), Hd; [reflexivity|].
    now replace (start + (i - start))%nat with i by lia. }
  assert (Hnext : forall d', d' = depth + brace_delta c ->
            scan_from loads s start (seq (S i) n) d' = Some v ->
            exists j, (start <= j)%nat /\
                      get j s = Some rbrace /\
                      brace_balance (substring start (j + 1 - start) s) = 0 /\
                      loads (substring start (j + 1 - start) s) = Some v).
  { intros d' Hd' Hs. apply (IH (S i) d'); [lia| |exact Hs].
    replace (S i - start)%nat with (i + 1 - start)%nat by lia.
    now rewrite Hbal. }
  unfold brace_delta in Hbal, Hnext.
  destruct (c =? lbrace)%char eqn:El; [now apply (Hnext (depth + 1))|].
  destruct (c =? rbrace)%char eqn:Er.
  - destruct (Z.eqb_spec (depth - 1) 0) as [E0|E0].
    + exists i. apply Ascii.eqb_eq in Er. subst c.
      repeat split; [assumption..| |exact H]. rewrite Hbal. lia.
    + apply (Hnext (depth - 1)); [lia|exact H].
  - apply (Hnext depth); [lia|exact H].
Qed.

(** X14: whatever the salvage returns, other than None, is the parse of a
    piece of the cleaned text that starts at an opening brace, ends at a
    closing brace and holds as many opening as closing braces. *)
Theorem extract_json_sound (s : string) (v : JSONValue) :
  _extract_json_from_text loads s = v ->
  v <> JNull ->
  exists start j,
    (start <= j)%nat /\
    get start (strip_fences s) = Some lbrace /\
    get j (strip_fences s) = Some rbrace /\
    brace_balance (substring start (j + 1 - start) (strip_fences s)) = 0 /\
    loads (substring start (j + 1 - start) (strip_fences s)) = Some v.
Proof.
  unfold _extract_json_from_text. intros H Hv.
  destruct s as [|c0 s0]; [now subst|].
  set (s_clean := strip_fences (String c0 s0)) in *.
  destruct (scan_starts loads s_clean (start_idxs s_clean)) as [w|] eqn:E;
    [|now subst]. subst w.
  assert (Hs : forall start, In start (start_idxs s_clean) ->
                 get start s_clean = Some lbrace)
    by (intros start; apply start_idxs_in).
  revert E Hs. generalize (start_idxs s_clean) as starts.
  induction starts as [|start starts IH]; intros E Hs; [discriminate|].
  cbn [scan_starts] in E.
  destruct (scan_from loads s_clean start
              (seq start (length s_clean - start)) 0) as [w|] eqn:F.
  - injection E as ->. exists start.
    assert (G : get start s_clean = Some lbrace) by (apply Hs; now left).
    destruct (scan_from_sound s_clean start v G _ start 0 (le_n _)
                ltac:(now rewrite Nat.sub_diag, substring_zero) F)
      as [j [Hj [Gj [Hb Hl]]]].
    exists j. auto.
  - apply IH; [exact E|]. intros; apply Hs; now right.
Qed.

End MoreRecoveryFacts.

Lemma parsed_of_embedded_object_witness :
  parsed_of Json.loads
    ("Here is the data: " ++ Json.q "{'clauses': [], 'parties': ['A', 'B']}"
       ++ " Let me know {if} you need more.") =
  JObject [("clauses", JArray []);
           ("parties", JArray [JString "A"; JString "B"])].
Proof.
  apply (parsed_of_embedded_object Json.loads "Here is the data: "
           (Json.q "{'clauses': [], 'parties': ['A', 'B']}")
           " Let me know {if} you need more.");
    vm_compute; reflexivity.
Defined.

Lemma extract_json_sound_witness :
  exists start j,
    (start <= j)%nat /\
    get start (strip_fences "see {} and {x}") = Some lbrace /\
    get j (strip_fences "see {} and {x}") = Some rbrace /\
    brace_balance
      (substring start (j + 1 - start) (strip_fences "see {} and {x}")) = 0 /\
    Json.loads
      (substring start (j + 1 - start) (strip_fences "see {} and {x}")) =
      Some (JObject []).
Proof.
  apply (extract_json_sound Json.loads "see {} and {x}" (JObject [])).
  - vm_compute; reflexivity.
  - discriminate.
Defined.

(** ** Normalizing white space *)

Lemma collapse_spaced (b : bool) (t : string) :
  spaced b (collapse_spaces b t) = true.
Proof.
  revert b; induction t as [|c t IH]; intros b; [reflexivity|].
  cbn [collapse_spaces]. destruct (is_space c) eqn:E.
  - destruct b; [apply IH|]. cbn [spaced].
    change (is_space " ") with true. cbv iota.
    now rewrite Ascii.eqb_refl, IH.
  - cbn [spaced]. rewrite E. apply IH.
Qed.

Lemma lstrip_spaced (p : bool) (s : string) :
  spaced p s = true -> spaced true (lstrip s) = true.
Proof.
  revert p; induction s as [|c s IH]; intros p H; [reflexivity|].
  cbn [lstrip spaced] in *. destruct (is_space c) eqn:E.
  - apply andb_true_iff in H as [_ H]. now apply (IH true).
  - cbn [spaced]. now rewrite E.
Qed.

Lemma well_spaced_cons (p : bool) (c : ascii) (s : string) :
  well_spaced p (String c s) =
  if is_space c
  then ((c =? " ")%char && negb p && well_spaced true s)%bool
  else well_spaced false s.
Proof. reflexivity. Qed.

Lemma rstrip_well (p : bool) (s : string) :
  spaced p s = true ->
  rstrip s = EmptyString \/ well_spaced p (rstrip s) = true.
Proof.
  revert p; induction s as [|c s IH]; intros p H; [now left|].
  cbn [rstrip spaced] in *. destruct (is_space c) eqn:E.
  - apply andb_true_iff in H as [H1 H2].
    destruct (IH true H2) as [-> | Hw]; [now left|].
    destruct (rstrip s) as [|c' r]; [now left|].
    right. rewrite well_spaced_cons, E, H1. exact Hw.
  - destruct (IH false H) as [-> | Hw].
    + right. cbn [well_spaced]. now rewrite E.
    + destruct (rstrip s) as [|c' r].
      * right. cbn [well_spaced]. now rewrite E.
      * right. rewrite well_spaced_cons, E. exact Hw.
Qed.

Lemma normalize_well (t : string) :
  normalize_whitespace t = EmptyString \/
  well_spaced true (normalize_whitespace t) = true.
Proof.
  unfold normalize_whitespace, strip.
  apply rstrip_well, (lstrip_spaced false), collapse_spaced.
Qed.

Lemma well_spaced_weaken (s : string) :
  well_spaced true s = true -> well_spaced false s = true.
Proof.
  destruct s as [|c s]; [discriminate|]. cbn [well_spaced].
  destruct (is_space c); [|auto].
  rewrite andb_false_r. discriminate.
Qed.

Lemma well_spaced_head (s : string) :
  well_spaced true s = true ->
  exists c s', s = String c s' /\ is_space c = false.
Proof.
  destruct s as [|c s]; [discriminate|]. cbn [well_spaced].
  destruct (is_space c) eqn:E; [rewrite andb_false_r; discriminate|].
  intros _. now exists c, s.
Qed.

Lemma well_spaced_collapse (p : bool) (s : string) :
  well_spaced p s = true -> collapse_spaces p s = s.
Proof.
  revert p; induction s as [|c s IH]; intros p H; [reflexivity|].
  cbn [well_spaced collapse_spaces] in *. destruct (is_space c).
  - apply andb_true_iff in H as [H1 H2]. apply andb_true_iff in H1 as [Hc Hp].
    apply Ascii.eqb_eq in Hc. subst c.
    destruct p; [discriminate|]. now rewrite (IH true).
  - now rewrite (IH false).
Qed.

Lemma well_spaced_rstrip (p : bool) (s : string) :
  well_spaced p s = true -> rstrip s = s.
Proof.
  revert p; induction s as [|c s IH]; intros p H; [reflexivity|].
  cbn [well_spaced rstrip] in *.
  assert (Hs : exists q, well_spaced q s = true /\
                         (s = EmptyString -> is_space c = false)).
  { destruct (is_space c).
    - apply andb_true_iff in H as [_ H]. exists true. split; [exact H|].
      intros ->. discriminate.
    - exists false. now split. }
  destruct Hs as [q [Hq Hc]]. rewrite (IH q Hq).
  destruct s; [now rewrite Hc|reflexivity].
Qed.

Lemma well_spaced_fixed (s : string) :
  well_spaced true s = true -> normalize_whitespace s = s.
Proof.
  intros H. unfold normalize_whitespace, strip.
  rewrite (well_spaced_collapse false s (well_spaced_weaken s H)).
  destruct (well_spaced_head s H) as [c [s' [-> Hc]]].
  cbn [lstrip]. rewrite Hc. now apply (well_spaced_rstrip true).
Qed.

Lemma well_spaced_positions (s : string) :
  forall (p : bool) (i : nat) (c : ascii),
    well_spaced p s = true ->
    get i s = Some c -> is_space c = true ->
    c = " "%char /\
    (i = 0%nat -> p = false) /\
    (forall j, i = S j ->
       exists a, get j s = Some a /\ is_space a = false) /\
    (exists b, get (S i) s = Some b /\ is_space b = false).
Proof.
  induction s as [|x s IH]; intros p i c H G Hc; [discriminate|].
  cbn [well_spaced] in H. destruct i as [|j]; cbn [get] in G.
  - injection G as ->. rewrite Hc in H.
    apply andb_true_iff in H as [H1 H2]. apply andb_true_iff in H1 as [Hx Hp].
    apply Ascii.eqb_eq in Hx.
    destruct (well_spaced_head s H2) as [b [s' [-> Hb]]].
    repeat split; [exact Hx|now destruct p|discriminate|].
    exists b. now split.
  - assert (Hs : well_spaced (is_space x) s = true).
    { destruct (is_space x); [|exact H].
      now apply andb_true_iff in H as [_ H]. }
    destruct (IH _ j c Hs G Hc) as [E [H0 [Hprev Hnext]]].
    repeat split; [exact E|discriminate| |exact Hnext].
    intros j0 Ej. injection Ej as <-. destruct j as [|j'].
    + exists x. split; [reflexivity|now apply H0].
    + destruct (Hprev j' eq_refl) as [a Ha]. now exists a.
Qed.

(** X15: in normalized text every white-space character is a blank with a
    character that is no white space on either side: no leading or
    trailing white space, no tab or line break, no two blanks in a row. *)
Theorem normalize_whitespace_shape (t : string) (i : nat) (c : ascii) :
  get i (normalize_whitespace t) = Some c ->
  is_space c = true ->
  c = " "%char /\
  (exists j a, i = S j /\ get j (normalize_whitespace t) = Some a /\
               is_space a = false) /\
  (exists b, get (S i) (normalize_whitespace t) = Some b /\
             is_space b = false).
Proof.
  intros G Hc. destruct (normalize_well t) as [E|Hw].
  - rewrite E in G. discriminate.
  - destruct (well_spaced_positions _ true i c Hw G Hc) as [E [H0 [Hp Hn]]].
    split; [exact E|]. split; [|exact Hn].
    destruct i as [|j]; [now discriminate H0|].
    destruct (Hp j eq_refl) as [a Ha]. now exists j, a.
Qed.

Lemma normalize_whitespace_shape_witness :
  " "%char = " "%char /\
  (exists j a, 1%nat = S j /\
               get j (normalize_whitespace ("  a " ++ String LF "  b ")) =
                 Some a /\
               is_space a = false) /\
  (exists b, get 2 (normalize_whitespace ("  a " ++ String LF "  b ")) =
               Some b /\
             is_space b = false).
Proof.
  apply (normalize_whitespace_shape ("  a " ++ String LF "  b ") 1 " ");
    reflexivity.
Defined.

(** X16: normalizing twice is normalizing once. *)
Theorem normalize_whitespace_idempotent (t : string) :
  normalize_whitespace (normalize_whitespace t) = normalize_whitespace t.
Proof.
  destruct (normalize_well t) as [->|Hw]; [reflexivity|].
  now apply well_spaced_fixed.
Qed.

Lemma remove_spaces_collapse (b : bool) (t : string) :
  remove_spaces (collapse_spaces b t) = remove_spaces t.
Proof.
  revert b; induction t as [|c t IH]; intros b; [reflexivity|].
  cbn [collapse_spaces remove_spaces]. destruct (is_space c) eqn:E.
  - destruct b; [apply IH|]. cbn [remove_spaces].
    change (is_space " ") with true. cbv iota. apply IH.
  - cbn [remove_spaces]. now rewrite E, IH.
Qed.

Lemma remove_spaces_lstrip (s : string) :
  remove_spaces (lstrip s) = remove_spaces s.
Proof.
  induction s as [|c s IH]; [reflexivity|].
  cbn [lstrip remove_spaces]. destruct (is_space c) eqn:E; [exact IH|].
  cbn [remove_spaces]. now rewrite E.
Qed.

Lemma remove_spaces_rstrip (s : string) :
  remove_spaces (rstrip s) = remove_spaces s.
Proof.
  induction s as [|c s IH]; [reflexivity|].
  cbn [rstrip remove_spaces]. destruct (rstrip s) as [|c' r].
  - cbn [remove_spaces] in IH. rewrite <- IH.
    destruct (is_space c) eqn:E; [reflexivity|].
    cbn [remove_spaces]. now rewrite E.
  - cbn [remove_spaces] in *. now rewrite IH.
Qed.

(** X17: normalizing keeps the characters that are no white space, all of
    them and in order, and it returns the empty text exactly for a text
    of white space only. *)
Theorem normalize_whitespace_keeps_text (t : string) :
  remove_spaces (normalize_whitespace t) = remove_spaces t /\
  (normalize_whitespace t = EmptyString <-> remove_spaces t = EmptyString).
Proof.
  assert (H : remove_spaces (normalize_whitespace t) = remove_spaces t).
  { unfold normalize_whitespace, strip.
    now rewrite remove_spaces_rstrip, remove_spaces_lstrip,
      remove_spaces_collapse. }
  split; [exact H|]. split.
  - intros E. now rewrite E in H.
  - intros E. rewrite E in H.
    destruct (normalize_well t) as [->|Hw]; [reflexivity|].
    destruct (well_spaced_head _ Hw) as [c [s' [Es Hc]]].
    rewrite Es in H. cbn [remove_spaces] in H. rewrite Hc in H. discriminate.
Qed.


(** ** Normalizing and scoring *)

Lemma prefix_split (w u : string) :
  prefix w u = true -> exists b, u = (w ++ b)%string.
Proof.
  revert u; induction w as [|c w IH]; intros u H; [now exists u|].
  destruct u as [|d u]; cbn [prefix] in H; [discriminate|].
  destruct (ascii_dec c d) as [->|]; [|discriminate].
  destruct (IH u H) as [b ->]. now exists b.
Qed.

Lemma prefix_self_app (w b : string) : prefix w (w ++ b) = true.
Proof.
  induction w as [|c w IH]; [apply prefix_empty|].
  cbn [append prefix]. now destruct (ascii_dec c c).
Qed.

Lemma str_in_split (w u : string) :
  str_in w u = true -> exists a b, u = (a ++ w ++ b)%string.
Proof.
  induction u as [|d u IH]; cbn [str_in]; intros H.
  - rewrite orb_false_r in H. destruct (prefix_split _ _ H) as [b E].
    now exists EmptyString, b.
  - apply orb_true_iff in H as [H|H].
    + destruct (prefix_split _ _ H) as [b E]. now exists EmptyString, b.
    + destruct (IH H) as [a [b ->]]. now exists (String d a), b.
Qed.

Lemma str_in_mid (w a b : string) : str_in w (a ++ w ++ b) = true.
Proof.
  apply str_in_app_r. pose proof (prefix_self_app w b) as H.
  destruct (w ++ b)%string; cbn [str_in]; now rewrite H.
Qed.

Lemma is_space_lower_char (c : ascii) : is_space (lower_char c) = is_space c.
Proof. destruct c as [[] [] [] [] [] [] [] []]; reflexivity. Qed.

Lemma lower_collapse (b : bool) (t : string) :
  lower (collapse_spaces b t) = collapse_spaces b (lower t).
Proof.
  revert b; induction t as [|c t IH]; intros b; [reflexivity|].
  cbn [lower collapse_spaces]. rewrite is_space_lower_char.
  destruct (is_space c); [destruct b|]; cbn [lower]; now rewrite IH.
Qed.

Lemma lower_lstrip (s : string) : lower (lstrip s) = lstrip (lower s).
Proof.
  induction s as [|c s IH]; [reflexivity|].
  cbn [lower lstrip]. rewrite is_space_lower_char.
  now destruct (is_space c).
Qed.

Lemma lower_rstrip (s : string) : lower (rstrip s) = rstrip (lower s).
Proof.
  induction s as [|c s IH]; [reflexivity|].
  cbn [lower rstrip]. rewrite <- IH, is_space_lower_char.
  destruct (rstrip s); cbn [lower]; [now destruct (is_space c)|reflexivity].
Qed.

Lemma lower_normalize (t : string) :
  lower (normalize_whitespace t) = normalize_whitespace (lower t).
Proof.
  unfold normalize_whitespace, strip.
  now rewrite lower_rstrip, lower_lstrip, lower_collapse.
Qed.

Lemma collapse_app_head (p : bool) (a : string) (c : ascii) (x : string) :
  is_space c = false ->
  collapse_spaces p (a ++ String c x) =
  (collapse_spaces p a ++ collapse_spaces false (String c x))%string.
Proof.
  intros Hc. revert p; induction a as [|y a IH]; intros p.
  - cbn [append collapse_spaces]. now rewrite Hc.
  - cbn [append collapse_spaces]. destruct (is_space y); [destruct p|];
      cbn [append]; now rewrite IH.
Qed.

Lemma collapse_well_app (p : bool) (w b : string) :
  well_spaced p w = true ->
  collapse_spaces p (w ++ b) = (w ++ collapse_spaces false b)%string.
Proof.
  revert p; induction w as [|c w IH]; intros p H.
  - cbn [well_spaced] in H. now destruct p.
  - rewrite well_spaced_cons in H. cbn [append collapse_spaces].
    destruct (is_space c).
    + apply andb_true_iff in H as [H1 H2].
      apply andb_true_iff in H1 as [Hc Hp]. apply Ascii.eqb_eq in Hc.
      subst c. destruct p; [discriminate|]. now rewrite (IH true).
    + now rewrite (IH false).
Qed.

Lemma lstrip_app_head (a : string) (c : ascii) (x : string) :
  is_space c = false ->
  exists a', lstrip (a ++ String c x) = (a' ++ String c x)%string.
Proof.
  intros Hc. induction a as [|y a IH].
  - exists EmptyString. cbn [append lstrip]. now rewrite Hc.
  - cbn [append lstrip]. destruct (is_space y); [exact IH|].
    now exists (String y a).
Qed.

Lemma rstrip_app (x b : string) :
  rstrip (x ++ b) =
  match rstrip b with
  | EmptyString => rstrip x
  | r => (x ++ r)%string
  end.
Proof.
  induction x as [|c x IH].
  - cbn [append rstrip]. now destruct (rstrip b).
  - cbn [append rstrip]. rewrite IH. destruct (rstrip b) as [|d r];
      [reflexivity|]. now destruct x.
Qed.

Lemma append_nil_r (s : string) : (s ++ EmptyString)%string = s.
Proof. induction s as [|c s IH]; [reflexivity|]. cbn [append]. now rewrite IH. Qed.

Lemma rstrip_app_well (a w b : string) :
  well_spaced true w = true ->
  exists b', rstrip (a ++ w ++ b) = (a ++ w ++ b')%string.
Proof.
  intros Hw.
  assert (Hwb : exists b', rstrip (w ++ b) = (w ++ b')%string).
  { rewrite (rstrip_app w), (well_spaced_rstrip true w Hw).
    destruct (rstrip b) as [|d r].
    - exists EmptyString. now rewrite append_nil_r.
    - now exists (String d r). }
  destruct Hwb as [b' E]. exists b'. rewrite (rstrip_app a), E.
  destruct (well_spaced_head w Hw) as [c [w' [-> Hc]]]. reflexivity.
Qed.

Lemma normalize_keeps_occurrence (w u : string) :
  well_spaced true w = true ->
  str_in w u = true -> str_in w (normalize_whitespace u) = true.
Proof.
  intros Hw H. destruct (str_in_split _ _ H) as [a [b ->]].
  destruct (well_spaced_head w Hw) as [c [w' [Ew Hc]]].
  unfold normalize_whitespace, strip.
  assert (E1 : collapse_spaces false (a ++ w ++ b) =
               (collapse_spaces false a ++ w ++ collapse_spaces false b)%string).
  { rewrite Ew at 1. cbn [append]. rewrite collapse_app_head by exact Hc.
    f_equal. change (String c (w' ++ b)) with (String c w' ++ b)%string.
    rewrite <- Ew. apply collapse_well_app, well_spaced_weaken, Hw. }
  rewrite E1.
  assert (E2 : exists a', lstrip (collapse_spaces false a ++ w ++
                                  collapse_spaces false b) =
                          (a' ++ w ++ collapse_spaces false b)%string).
  { rewrite Ew. cbn [append]. now apply lstrip_app_head. }
  destruct E2 as [a' ->].
  destruct (rstrip_app_well a' w (collapse_spaces false b) Hw) as [b' ->].
  apply str_in_mid.
Qed.

Lemma keywords_well_spaced (lw : string * string) :
  In lw keywords -> well_spaced true (snd lw) = true.
Proof.
  unfold keywords, RISK_KEYWORDS. cbn [flat_map map app fst snd In].
  intros H. repeat (destruct H as [<-|H]; [reflexivity|]). destruct H.
Qed.

(** X18: normalizing the white space of a text never lowers its score:
    every keyword found in the text is still found after normalizing. *)
Theorem keyword_risk_score_normalized (t : string) :
  _keyword_risk_score t <= _keyword_risk_score (normalize_whitespace t).
Proof.
  rewrite !keyword_risk_score_presence, lower_normalize.
  apply Z.min_le_compat_l, presence_total_mono.
  intros lw Hin. apply normalize_keeps_occurrence.
  now apply keywords_well_spaced.
Qed.


(** ** Reading a file *)

Section ExtractorFacts.

Variable error : Type.
Variable _extract_text_from_pdf_bytes : list Byte.byte -> error + string.
Variable _extract_text_from_docx_bytes : list Byte.byte -> error + string.
Variable decode_utf8 : list Byte.byte -> option string.
Variable translation_call : string -> list message -> error + string.

(** X19: without translation, the text a file gives is normalized: it
    is what [normalize_whitespace] leaves unchanged, whatever the reader
    and the file name. *)
Theorem extract_text_normalized (data : list Byte.byte)
        (filename : option string) (r : string) :
  extract_text_from_bytes error _extract_text_from_pdf_bytes
    _extract_text_from_docx_bytes decode_utf8 translation_call
    data filename false = inr r ->
  normalize_whitespace r = r.
Proof.
  unfold extract_text_from_bytes.
  match goal with
  | |- match ?raw with _ => _ end = _ -> _ => destruct raw as [e|t]
  end; [discriminate|].
  intros H. injection H as <-.
  destruct (normalize_well t) as [->|Hw]; [reflexivity|].
  now apply well_spaced_fixed.
Qed.

(** X20: reading a file fails in two cases only, with the error of the
    reader: the name ends (in any case of letters) with .pdf and the PDF
    reader fails, or it ends with .docx or .doc and the DOCX reader
    fails.  A .txt name, any other name and no name never fail, and a
    failing translation is no failure either. *)
Theorem extract_text_failure (data : list Byte.byte)
        (filename : option string) (translate_hindi : bool) (e : error) :
  extract_text_from_bytes error _extract_text_from_pdf_bytes
    _extract_text_from_docx_bytes decode_utf8 translation_call
    data filename translate_hindi = inl e <->
  exists name,
    filename = Some name /\
    (endswith (lower name) ".pdf" = true /\
     _extract_text_from_pdf_bytes data = inl e \/
     endswith (lower name) ".pdf" = false /\
     endswith (lower name) ".docx" || endswith (lower name) ".doc" = true /\
     _extract_text_from_docx_bytes data = inl e).
Proof.
  unfold extract_text_from_bytes. split.
  - destruct filename as [[|c f]|]; [discriminate| |discriminate].
    intros H. exists (String c f). split; [reflexivity|].
    destruct (endswith (lower (String c f)) ".pdf") eqn:Ep.
    + left. split; [reflexivity|].
      destruct (_extract_text_from_pdf_bytes data); [|discriminate].
      now injection H as ->.
    + right. split; [reflexivity|].
      destruct (endswith (lower (String c f)) ".docx" ||
                endswith (lower (String c f)) ".doc") eqn:Ed.
      * split; [reflexivity|].
        destruct (_extract_text_from_docx_bytes data); [|discriminate].
        now injection H as ->.
      * destruct (endswith (lower (String c f)) ".txt"); [discriminate|].
        destruct (_extract_text_from_pdf_bytes data); discriminate.
  - intros [name [-> H]]. destruct name as [|c f].
    + destruct H as [[H _]|[_ [H _]]]; discriminate.
    + destruct H as [[Ep Hr]|[Ep [Ed Hr]]]; rewrite Ep.
      * now rewrite Hr.
      * now rewrite Ed, Hr.
Qed.

(** X21: the reader is chosen by the file name without regard to the
    case of its letters: two names with the same lower-case form, such
    as Lease.PDF and lease.pdf, give the same result. *)
Theorem extract_text_case_insensitive (data : list Byte.byte)
        (name name' : string) (translate_hindi : bool) :
  lower name = lower name' ->
  extract_text_from_bytes error _extract_text_from_pdf_bytes
    _extract_text_from_docx_bytes decode_utf8 translation_call
    data (Some name) translate_hindi =
  extract_text_from_bytes error _extract_text_from_pdf_bytes
    _extract_text_from_docx_bytes decode_utf8 translation_call
    data (Some name') translate_hindi.
Proof.
  intros H. unfold extract_text_from_bytes.
  destruct name as [|c f], name' as [|c' f']; try discriminate H;
    [reflexivity|].
  now rewrite H.
Qed.

End ExtractorFacts.

Lemma extract_text_normalized_witness :
  extract_text_from_bytes unit (fun _ => inr (String LF "  a   b "))
    (fun _ => inl tt) (fun _ => None) (fun _ _ => inl tt)
    [] (Some "Lease.PDF") false = inr "a b" /\
  normalize_whitespace "a b" = "a b".
Proof.
  split; [reflexivity|].
  apply (extract_text_normalized unit (fun _ => inr (String LF "  a   b "))
           (fun _ => inl tt) (fun _ => None) (fun _ _ => inl tt)
           [] (Some "Lease.PDF")).
  reflexivity.
Defined.

Lemma extract_text_case_insensitive_witness :
  extract_text_from_bytes unit (fun _ => inl tt)
    (fun _ => inr "docx text") (fun _ => None) (fun _ _ => inl tt)
    [] (Some "Lease.PDF") false =
  extract_text_from_bytes unit (fun _ => inl tt)
    (fun _ => inr "docx text") (fun _ => None) (fun _ _ => inl tt)
    [] (Some "lease.pdf") false /\
  extract_text_from_bytes unit (fun _ => inl tt)
    (fun _ => inr "docx text") (fun _ => None) (fun _ _ => inl tt)
    [] (Some "Lease.PDF") false = inl tt /\
  extract_text_from_bytes unit (fun _ => inl tt)
    (fun _ => inr "docx text") (fun _ => None) (fun _ _ => inl tt)
    [] (Some "Notes.DocX") false = inr "docx text".
Proof.
  split; [|split; reflexivity].
  apply (extract_text_case_insensitive unit (fun _ => inl tt)
           (fun _ => inr "docx text") (fun _ => None) (fun _ _ => inl tt)
           [] "Lease.PDF" "lease.pdf" false).
  reflexivity.
Defined.


(** ** The in-memory log *)

Lemma skipn_last_app {A : Type} (n : nat) (a b : list A) :
  skipn (List.length (skipn (List.length a - n) a ++ b) - n)
        (skipn (List.length a - n) a ++ b) =
  skipn (List.length (a ++ b) - n) (a ++ b).
Proof.
  destruct (Nat.le_gt_cases (List.length a) n) as [Hle|Hgt].
  - replace (List.length a - n)%nat with 0%nat by lia. reflexivity.
  - pose proof (firstn_skipn (List.length a - n) a) as Ea.
    assert (Hs : List.length (skipn (List.length a - n) a) = n)
      by (rewrite length_skipn; lia).
    set (s := skipn (List.length a - n) a) in *.
    set (p := firstn (List.length a - n) a) in *.
    clearbody s p. subst a. clear Hgt.
    rewrite <- app_assoc. rewrite !length_app, Hs.
    replace (n + List.length b - n)%nat with (List.length b) by lia.
    replace (List.length p + (n + List.length b) - n)%nat
      with (List.length p + List.length b)%nat by lia.
    rewrite (skipn_app (List.length p + List.length b) p).
    rewrite (skipn_all2 p) by lia. cbn [app]. f_equal. lia.
Qed.

Section LoggingFacts.

Variable LogRecord : Type.
Variable format : LogRecord -> option string.
Variable getMessage : LogRecord -> option string.

Lemma emit_all_last (records : list LogRecord) :
  forall lines : list string,
    (List.length lines <= logging_utils._MAX_LINES)%nat ->
    logging_utils.emit_all LogRecord format getMessage lines records =
    skipn (List.length
             (lines ++ logging_utils.messages_of LogRecord format getMessage
                         records) - logging_utils._MAX_LINES)
          (lines ++ logging_utils.messages_of LogRecord format getMessage
                      records).
Proof.
  unfold logging_utils.emit_all, logging_utils.messages_of.
  induction records as [|r rs IH]; intros lines Hlen.
  - cbn [fold_left flat_map]. rewrite app_nil_r.
    replace (List.length lines - logging_utils._MAX_LINES)%nat with 0%nat
      by lia.
    reflexivity.
  - cbn [fold_left flat_map]. unfold logging_utils.emit at 2.
    destruct (logging_utils.message_of LogRecord format getMessage r)
      as [msg|].
    + cbv zeta.
      assert (E : (if (logging_utils._MAX_LINES <?
                       List.length (lines ++ [msg]))%nat
                   then skipn (List.length (lines ++ [msg]) -
                               logging_utils._MAX_LINES) (lines ++ [msg])
                   else (lines ++ [msg])%list) =
                  skipn (List.length (lines ++ [msg]) -
                         logging_utils._MAX_LINES) (lines ++ [msg])).
      { destruct (Nat.ltb_spec logging_utils._MAX_LINES
                    (List.length (lines ++ [msg]))) as [H|H];
          [reflexivity|].
        replace (List.length (lines ++ [msg]) -
                 logging_utils._MAX_LINES)%nat with 0%nat by lia.
        reflexivity. }
      rewrite E, IH.
      * rewrite skipn_last_app. now rewrite <- app_assoc.
      * rewrite length_skipn. rewrite length_app in *. cbn [List.length].
        lia.
    + cbn [app]. now apply IH.
Qed.

(** X22: the log keeps the most recent lines.  Starting from a list of
    at most 200 lines, after the handler has been given any records the
    list holds the last 200 of the earlier lines followed by the
    messages of the records, in order, and never more than 200 lines. *)
Theorem emit_all_keeps_last (lines : list string)
        (records : list LogRecord) :
  (List.length lines <= logging_utils._MAX_LINES)%nat ->
  logging_utils.get_logs
    (logging_utils.emit_all LogRecord format getMessage lines records) =
  skipn (List.length
           (lines ++ logging_utils.messages_of LogRecord format getMessage
                       records) - logging_utils._MAX_LINES)
        (lines ++ logging_utils.messages_of LogRecord format getMessage
                    records) /\
  (List.length
     (logging_utils.get_logs
        (logging_utils.emit_all LogRecord format getMessage lines records))
   <= logging_utils._MAX_LINES)%nat.
Proof.
  intros Hlen. unfold logging_utils.get_logs.
  rewrite (emit_all_last records lines Hlen). split; [reflexivity|].
  rewrite length_skipn. lia.
Qed.

End LoggingFacts.

Lemma emit_all_keeps_last_witness :
  logging_utils.get_logs
    (logging_utils.emit_all string (fun _ => None) Some ["a"; "b"]
       (repeat "c" 198 ++ ["d"])) =
  ("b" :: repeat "c" 198 ++ ["d"])%list.
Proof.
  destruct (emit_all_keeps_last string (fun _ => None) Some ["a"; "b"]
              (repeat "c" 198 ++ ["d"])) as [E _].
  - vm_compute. lia.
  - rewrite E. vm_compute. reflexivity.
Defined.

Lemma existsb_is_ListHandler_app {other : Type}
      (l : list (logging_utils.Handler other))
      (f : option (string * string)) :
  existsb logging_utils.is_ListHandler (l ++ [logging_utils.ListHandler f]) =
  true.
Proof.
  rewrite existsb_app. cbn [existsb logging_utils.is_ListHandler].
  apply orb_true_r.
Qed.

(** X23: setting up logging again adds no second list handler: after a
    first call the root logger has a list handler, and a further call
    leaves the handlers as they are and only sets the level.  The other
    handlers are kept, in order. *)
Theorem setup_logging_once (other : Type)
        (root : logging_utils.Logger other) (level1 level2 : Z) :
  existsb logging_utils.is_ListHandler
    (logging_utils.handlers (logging_utils.setup_logging root level1)) =
    true /\
  logging_utils.setup_logging
    (logging_utils.setup_logging root level1) level2 =
  {| logging_utils.level := level2;
     logging_utils.handlers :=
       logging_utils.handlers (logging_utils.setup_logging root level1) |} /\
  List.length
    (filter logging_utils.is_ListHandler
       (logging_utils.handlers (logging_utils.setup_logging root level1))) =
  Nat.max 1
    (List.length
       (filter logging_utils.is_ListHandler (logging_utils.handlers root))) /\
  filter (fun h => negb (logging_utils.is_ListHandler h))
    (logging_utils.handlers (logging_utils.setup_logging root level1)) =
  filter (fun h => negb (logging_utils.is_ListHandler h))
    (logging_utils.handlers root).
Proof.
  assert (H1 : existsb logging_utils.is_ListHandler
                 (logging_utils.handlers
                    (logging_utils.setup_logging root level1)) = true).
  { unfold logging_utils.setup_logging.
    destruct (existsb logging_utils.is_ListHandler
                (logging_utils.handlers root)) eqn:E; cbn.
    - exact E.
    - apply existsb_is_ListHandler_app. }
  split; [exact H1|]. split.
  - unfold logging_utils.setup_logging at 1. now rewrite H1.
  - unfold logging_utils.setup_logging.
    destruct (existsb logging_utils.is_ListHandler
                (logging_utils.handlers root)) eqn:E;
      cbn [logging_utils.handlers].
    + split; [|reflexivity].
      apply existsb_exists in E as [h [Hin Hh]].
      assert (Hf : In h (filter logging_utils.is_ListHandler
                           (logging_utils.handlers root)))
        by (apply filter_In; now split).
      destruct (filter logging_utils.is_ListHandler
                  (logging_utils.handlers root)); [destruct Hf|].
      cbn [List.length]. lia.
    + rewrite !filter_app. cbn [filter logging_utils.is_ListHandler negb].
      rewrite app_nil_r. split; [|reflexivity].
      assert (Hn : filter logging_utils.is_ListHandler
                     (logging_utils.handlers root) = []).
      { induction (logging_utils.handlers root) as [|h l IH];
          [reflexivity|].
        cbn [existsb] in E. apply orb_false_iff in E as [Eh El].
        cbn [filter]. rewrite Eh. now apply IH. }
      rewrite Hn. reflexivity.
Qed.

(** ** The calls to the model *)

Section LlmFacts.

Variable client response : Type.
Variable _OPENAI_AVAILABLE : bool.
Variable getenv : string -> option string.
Variable OpenAI : string -> option client.
Variable create : client -> string -> list message -> option response.
Variable content_of : response -> outcome string.

Lemma str_or_key (a b : option string) (key : string) :
  llm.str_or a b = Some key /\ key <> EmptyString <->
  key <> EmptyString /\
  (a = Some key \/ (a = None \/ a = Some EmptyString) /\ b = Some key).
Proof.
  unfold llm.str_or. split.
  - intros [H Hk]. split; [exact Hk|].
    destruct a as [[|c k]|]; auto.
  - intros [Hk [->|[[->| ->] ->]]]; split; auto.
    destruct key; [contradiction|reflexivity].
Qed.

(** X24: a request to the model succeeds exactly when the openai package
    is there, a non-empty key is found, OPENAI_API_KEY first and
    openai_key when the first is unset or empty, the client can be built
    with that key and the request itself succeeds; every failure is a
    RuntimeError. *)
Theorem call_openai_chat_outcome (messages : list message) (model : string) :
  (forall resp,
     llm.call_openai_chat client response _OPENAI_AVAILABLE getenv OpenAI
       create messages model = Ok resp <->
     _OPENAI_AVAILABLE = true /\
     exists key cl,
       key <> EmptyString /\
       (getenv "OPENAI_API_KEY" = Some key \/
        (getenv "OPENAI_API_KEY" = None \/
         getenv "OPENAI_API_KEY" = Some EmptyString) /\
        getenv "openai_key" = Some key) /\
       OpenAI key = Some cl /\
       create cl model messages = Some resp) /\
  (forall e,
     llm.call_openai_chat client response _OPENAI_AVAILABLE getenv OpenAI
       create messages model = Raise e ->
     e = RuntimeError).
Proof.
  unfold llm.call_openai_chat, llm._get_client. split.
  - intros resp. split.
    + destruct _OPENAI_AVAILABLE; cbn [negb bind]; [|discriminate].
      destruct (llm.str_or (getenv "OPENAI_API_KEY") (getenv "openai_key"))
        as [[|c k]|] eqn:Ek; [discriminate| |discriminate].
      destruct (OpenAI (String c k)) as [cl|] eqn:Ec; [|discriminate].
      cbn [bind].
      destruct (create cl model messages) as [r|] eqn:Er; [|discriminate].
      intros H. injection H as <-. split; [reflexivity|].
      exists (String c k), cl.
      assert (Hk : String c k <> EmptyString) by discriminate.
      destruct (proj1 (str_or_key _ _ _) (conj Ek Hk)) as [_ Hor].
      repeat split; assumption.
    + intros [-> [key [cl [Hk [Hor [Ec Er]]]]]]. cbn [negb].
      destruct (proj2 (str_or_key _ _ _) (conj Hk Hor)) as [Ek _].
      rewrite Ek. destruct key as [|c k]; [contradiction|].
      rewrite Ec. cbn [bind]. now rewrite Er.
  - intros e.
    destruct _OPENAI_AVAILABLE; cbn [negb bind];
      [|intros H; now injection H as <-].
    destruct (llm.str_or (getenv "OPENAI_API_KEY") (getenv "openai_key"))
      as [[|c k]|]; try (intros H; now injection H as <-).
    destruct (OpenAI (String c k)) as [cl|];
      [|intros H; now injection H as <-].
    cbn [bind]. destruct (create cl model messages);
      [discriminate|intros H; now injection H as <-].
Qed.

(** X25: without a key, OPENAI_API_KEY and openai_key both unset or
    empty, the analysis of any contract raises RuntimeError, whatever
    the prompts and the model. *)
Theorem analyze_contract_no_key (loads : string -> option JSONValue)
        (contract : string) (system_prompts : option (list string))
        (model : string) :
  getenv "OPENAI_API_KEY" = None \/
  getenv "OPENAI_API_KEY" = Some EmptyString ->
  getenv "openai_key" = None \/ getenv "openai_key" = Some EmptyString ->
  analyze_contract loads
    (fun t sp m =>
       llm.extract_contract_fields client response _OPENAI_AVAILABLE getenv
         OpenAI create content_of t (Some sp) m)
    contract system_prompts model = Raise RuntimeError.
Proof.
  intros H1 H2.
  unfold analyze_contract, llm.extract_contract_fields,
    llm.call_openai_chat, llm._get_client.
  destruct _OPENAI_AVAILABLE; cbn [negb bind]; [|reflexivity].
  destruct H1 as [-> | ->], H2 as [-> | ->]; reflexivity.
Qed.

End LlmFacts.

Lemma analyze_contract_no_key_witness :
  analyze_contract Json.loads
    (fun t sp m =>
       llm.extract_contract_fields unit string true
         (fun name => if (name =? "OPENAI_API_KEY")%string
                      then Some EmptyString else None)
         (fun _ => Some tt) (fun _ _ _ => Some "{}") Ok t (Some sp) m)
    "The supplier shall indemnify the buyer." None "gpt-4o-mini" =
  Raise RuntimeError.
Proof.
  apply (analyze_contract_no_key unit string true
           (fun name => if (name =? "OPENAI_API_KEY")%string
                        then Some EmptyString else None)
           (fun _ => Some tt) (fun _ _ _ => Some "{}") Ok).
  - right. reflexivity.
  - left. reflexivity.
Defined.
